(** * The race-condition demo: WithoutCleanup and WithCleanup

    A shallow embedding of [src/App.tsx].  The file has three pieces of
    program text that matter: the simulated remote source [fetchUserData],
    and the two components [WithoutCleanup] and [WithCleanup], each made of
    an effect, the callback it passes to [then], and (for [WithCleanup]) the
    cleanup closure the effect returns.  Those pieces are transcribed below
    as computations in a state monad over the record [World]; the hooks
    runtime that calls them is the small interpreter [step].

    What the interpreter takes from React and from promises:
    - an effect runs after the first render and after each render in which
      its dependency changed; [fetchUser] is memoised on [userId], so the
      dependency of both effects is [userId];
    - before an effect runs again, and when the instance is unmounted, the
      function its last run returned is called;
    - a state setter called on an unmounted instance is dropped;
    - a timer fires once, its promise settles once, and the callback given
      to [then] runs right after the timer callback, with nothing in
      between; [then] with one callback does nothing on rejection;
    - each [let isMounted] is a fresh variable, shared by the two closures
      built in the same run of the effect: a location in [heap].
    The order in which timers fire is left to the events; a [Session] puts
    a component on a clock and fires each timer when its delay has passed,
    and [Demo] is the shell, which toggles the identifier of both panels.

    Identifiers are the integers the shell produces ([Z]); [pretty] is the
    decimal rendering a template literal gives them. *)

From stdpp Require Import base list strings numbers pretty.

Open Scope Z_scope.

(** ** Data *)

(** [type UserData = { id; name; email }] *)
Record UserData := mkUserData { id : Z; name : string; email : string }.

(** How a promise can be settled.  [fetchUserData] only ever calls
    [resolve]; [Rejected] is there for the callers, whose [then] has a
    behaviour on it. *)
Inductive Settled :=
| Fulfilled (userData : UserData)
| Rejected.

(** The closure handed to [setTimeout] by [fetchUserData], with the delay it
    was registered for: it logs [received] and resolves with [value]. *)
Record Timer := mkTimer { delay : Z; received : string; value : UserData }.

(** The two callbacks passed to [then], as the variables they close over:
    [userId] for both, and for [WithCleanup] its own [isMounted], a location
    in [heap]. *)
Inductive Callback :=
| WithoutCleanup_then (userId : Z)
| WithCleanup_then (userId : Z) (isMounted : nat).

(** The function [WithCleanup]'s effect returns. *)
Inductive Cleanup :=
| WithCleanup_cleanup (userId : Z) (isMounted : nat).

(** One fetch invocation: the timer, the callback chained on its promise,
    and whether the promise is settled already. *)
Record Request := mkRequest { timer : Timer; callback : Callback; settled : bool }.

Definition mark_settled (r : Request) : Request :=
  mkRequest (timer r) (callback r) true.

Inductive Component := WithoutCleanup | WithCleanup.

(** What can happen to a mounted component: its parent renders it with a
    [userId]; the timer of its [k]-th fetch fires; the promise of its [k]-th
    fetch is rejected (never by [fetchUserData] itself); it is unmounted. *)
Inductive event :=
| Render (userId : Z)
| Timeout (k : nat)
| Fail (k : nat)
| Unmount.

(** The console, as an interface: all the program does with it is [log]. *)
Class Sink (C : Type) := console_log : string → C → C.

(** A console that keeps what is logged, oldest line first. *)
#[export] Instance recording_sink : Sink (list string) := λ line out, out ++ [line].

(** No console at all. *)
#[export] Instance absent_sink : Sink unit := λ _ _, tt.

Definition ESC : string := String (Ascii.ascii_of_nat 27) "".
Definition red (s : string) : string := ESC +:+ "[31m" +:+ s +:+ ESC +:+ "[0m".
Definition green (s : string) : string := ESC +:+ "[32m" +:+ s +:+ ESC +:+ "[0m".
Definition show_bool (b : bool) : string := if b then "true" else "false".

(** The delay and the payload of [fetchUserData], which depend on [userId]
    alone. *)
Definition fetch_delay (userId : Z) : Z := if bool_decide (userId = 1) then 3000 else 1000.

Definition fetch_result (userId : Z) : UserData :=
  {| id := userId;
     name := "User " +:+ pretty userId;
     email := "user" +:+ pretty userId +:+ "@example.com" |}.

Section Runtime.
Context {C : Type} `{!Sink C}.

(** One component instance and what it shares with the runtime. *)
Record World := mkWorld {
  data : option UserData;    (* useState<UserData | null>(null) *)
  loading : bool;            (* useState(true) *)
  props : Z;                 (* the userId of the last render, the effect's dependency *)
  mounted : bool;
  cleanup : option Cleanup;  (* what the last run of the effect returned *)
  heap : list bool;          (* the isMounted variables, one per run of WithCleanup's effect *)
  timers : list Request;     (* the fetch invocations, oldest first *)
  console : C
}.

(** A computation that reads and writes the world. *)
Definition M (A : Type) : Type := World → A * World.

#[export] Instance M_ret : MRet M := λ A a w, (a, w).
#[export] Instance M_bind : MBind M := λ A B k m w, let '(a, w') := m w in k a w'.
Definition exec {A} (m : M A) (w : World) : World := snd (m w).

(** *** Primitives of the runtime *)

Definition log (line : string) : M unit := λ w,
  (tt, mkWorld (data w) (loading w) (props w) (mounted w) (cleanup w)
               (heap w) (timers w) (console_log line (console w))).

(** A state setter updates its cell as long as the instance is mounted;
    React drops an update aimed at an unmounted one. *)
Definition setData (d : option UserData) : M unit := λ w,
  (tt, if mounted w
       then mkWorld d (loading w) (props w) (mounted w) (cleanup w)
                    (heap w) (timers w) (console w)
       else w).

Definition setLoading (b : bool) : M unit := λ w,
  (tt, if mounted w
       then mkWorld (data w) b (props w) (mounted w) (cleanup w)
                    (heap w) (timers w) (console w)
       else w).

(** [let isMounted = v]: a fresh variable. *)
Definition declare (v : bool) : M nat := λ w,
  (length (heap w),
   mkWorld (data w) (loading w) (props w) (mounted w) (cleanup w)
           (heap w ++ [v]) (timers w) (console w)).

(** Reading a closure variable.  A closure is only ever built after its
    variable, so the location exists; the default is never used. *)
Definition read (l : nat) : M bool := λ w, (default false (heap w !! l), w).

Definition assign (l : nat) (v : bool) : M unit := λ w,
  (tt, mkWorld (data w) (loading w) (props w) (mounted w) (cleanup w)
               (<[l:=v]> (heap w)) (timers w) (console w)).

(** [promise.then(cb)]: the invocation joins the in-flight ones. *)
Definition then_ (t : Timer) (cb : Callback) : M unit := λ w,
  (tt, mkWorld (data w) (loading w) (props w) (mounted w) (cleanup w)
               (heap w) (timers w ++ [mkRequest t cb false]) (console w)).

Definition settle (k : nat) : M unit := λ w,
  (tt, mkWorld (data w) (loading w) (props w) (mounted w) (cleanup w) (heap w)
               (alter mark_settled k (timers w))
               (console w)).

(** *** The program *)

(** [fetchUserData(userId, msg)], up to the promise it returns. *)
Definition fetchUserData (userId : Z) (msg : string) : M Timer :=
  log (msg +:+ "Fetching user " +:+ pretty userId +:+ "...") ;;
  mret {| delay := fetch_delay userId;
         received := msg +:+ "Received data for user " +:+ pretty userId;
         value := fetch_result userId |}.

(** The body of the [setTimeout] callback. *)
Definition on_timeout (t : Timer) : M Settled :=
  log (received t) ;;
  mret (Fulfilled (value t)).

(** [fetchUser], the memoised wrapper of [WithCleanup]. *)
Definition fetchUser (userId : Z) : M Timer :=
  log (green "[WITH CLEANUP]" +:+ " fetchUser called for userId=" +:+ pretty userId) ;;
  fetchUserData userId (green "[WITH CLEANUP]").

(** The effect of [WithoutCleanup]; it returns no cleanup. *)
Definition WithoutCleanup_effect (userId : Z) : M (option Cleanup) :=
  log (red "[WITHOUT CLEANUP]" +:+ " Effect running for userId=" +:+ pretty userId) ;;
  setLoading true ;;
  t ← fetchUserData userId (red "[WITHOUT CLEANUP]");
  then_ t (WithoutCleanup_then userId) ;;
  mret None.

(** The effect of [WithCleanup]. *)
Definition WithCleanup_effect (userId : Z) : M (option Cleanup) :=
  log (green "[WITH CLEANUP]" +:+ " Effect running for userId=" +:+ pretty userId) ;;
  setLoading true ;;
  isMounted ← declare true;
  t ← fetchUser userId;
  then_ t (WithCleanup_then userId isMounted) ;;
  mret (Some (WithCleanup_cleanup userId isMounted)).

(** The callbacks given to [then], run with the value the promise was
    fulfilled with. *)
Definition run_callback (cb : Callback) (userData : UserData) : M unit :=
  match cb with
  | WithoutCleanup_then userId =>
      log (red "[WITHOUT CLEANUP]" +:+ " Setting state for userId=" +:+ pretty userId) ;;
      setData (Some userData) ;;
      setLoading false
  | WithCleanup_then userId isMounted =>
      b ← read isMounted;
      if (b : bool) return M unit then
        log (green "[WITH CLEANUP]" +:+ " Setting state for userId=" +:+ pretty userId
             +:+ " (isMounted=" +:+ show_bool b +:+ ")") ;;
        setData (Some userData) ;;
        setLoading false
      else
        log (green "[WITH CLEANUP]" +:+ " Ignoring response for userId=" +:+ pretty userId
             +:+ " (isMounted=" +:+ show_bool b +:+ ")")
  end.

(** [then] was given one callback only: a rejection runs nothing. *)
Definition on_settled (cb : Callback) (s : Settled) : M unit :=
  match s with
  | Fulfilled userData => run_callback cb userData
  | Rejected => mret tt
  end.

Definition run_cleanup (cl : Cleanup) : M unit :=
  match cl with
  | WithCleanup_cleanup userId isMounted =>
      log (green "[WITH CLEANUP]" +:+ " Cleanup for userId=" +:+ pretty userId) ;;
      assign isMounted false
  end.

(** *** The hooks runtime *)

Definition effect_of (c : Component) : Z → M (option Cleanup) :=
  match c with
  | WithoutCleanup => WithoutCleanup_effect
  | WithCleanup => WithCleanup_effect
  end.

(** Run the cleanup the last effect left, if any, and forget it. *)
Definition teardown (w : World) : World :=
  let w' := match cleanup w with
            | Some cl => exec (run_cleanup cl) w
            | None => w
            end in
  mkWorld (data w') (loading w') (props w') (mounted w') None
          (heap w') (timers w') (console w').

(** Run the component's effect for [userId] and keep what it returns. *)
Definition start (c : Component) (userId : Z) (w : World) : World :=
  let '(cl, w') := effect_of c userId
                     (mkWorld (data w) (loading w) userId (mounted w) (cleanup w)
                              (heap w) (timers w) (console w)) in
  mkWorld (data w') (loading w') (props w') (mounted w') cl
          (heap w') (timers w') (console w').

(** The first render: both [useState] cells hold their initial value. *)
Definition initial (userId : Z) (out : C) : World :=
  mkWorld None true userId true None [] [] out.

Definition mount (c : Component) (userId : Z) (out : C) : World :=
  start c userId (initial userId out).

(** A render with an unchanged dependency runs nothing; with a changed
    one, the cleanup of the previous effect and then the effect. *)
Definition render (c : Component) (userId : Z) (w : World) : World :=
  if mounted w then
    if bool_decide (userId = props w) then w
    else start c userId (teardown w)
  else w.

(** The [k]-th timer fires: its promise is settled and the chained
    callback runs right after.  A promise settles once. *)
Definition fire (k : nat) (w : World) : World :=
  match timers w !! k with
  | Some r =>
      if settled r then w
      else exec (s ← on_timeout (timer r); settle k ;; on_settled (callback r) s) w
  | None => w
  end.

Definition reject (k : nat) (w : World) : World :=
  match timers w !! k with
  | Some r =>
      if settled r then w
      else exec (settle k ;; on_settled (callback r) Rejected) w
  | None => w
  end.

Definition unmount (w : World) : World :=
  if mounted w then
    let w' := teardown w in
    mkWorld (data w') (loading w') (props w') false (cleanup w')
            (heap w') (timers w') (console w')
  else w.

Definition step (c : Component) (e : event) (w : World) : World :=
  match e with
  | Render userId => render c userId w
  | Timeout k => fire k w
  | Fail k => reject k w
  | Unmount => unmount w
  end.

Definition run (c : Component) (es : list event) (w : World) : World :=
  foldl (λ w e, step c e w) w es.

(** The pair the component renders from. *)
Definition display (w : World) : option UserData * bool := (data w, loading w).

End Runtime.

Arguments World : clear implicits.
Arguments M : clear implicits.

(** ** The shell *)

(** [toggleUser]'s updater. *)
Definition toggleUser (prevId : Z) : Z := if bool_decide (prevId = 1) then 2 else 1.

(** ** The panels *)

(** What a panel shows: the paragraph "Loading...", or the three fields as
    [data?.id], [data?.name] and [data?.email] give them, [None] standing
    for [undefined].  The markup and the line with the time of the render
    are left out. *)
Inductive Panel :=
| Loading
| Fields (id : option Z) (name email : option string).

Section Shell.
Context {C : Type} `{!Sink C}.

Definition panel (w : World C) : Panel :=
  if loading w then Loading
  else Fields (id <$> data w) (name <$> data w) (email <$> data w).

(** ** The clock *)

(** A component on a clock, in milliseconds: next to its world, the time at
    which the timer of each invocation is due. *)
Record Session := mkSession { world : World C; due : list Z }.

(** Timers by due time, and by registration among equals. *)
Fixpoint insert_due (x : Z * nat) (l : list (Z * nat)) : list (Z * nat) :=
  match l with
  | [] => [x]
  | y :: l' => if bool_decide (x.1 ≤ y.1) then x :: l else y :: insert_due x l'
  end.

(** The timers due by time [t], in the order they fire. *)
Definition due_by (t : Z) (ds : list Z) : list nat :=
  (foldr insert_due [] (filter (λ x, x.1 ≤ t) (imap (λ k d, (d, k)) ds))).*2.

(** Time passes until [t]: the timers due by then fire.  One that has fired
    already does nothing. *)
Definition elapse (c : Component) (t : Z) (s : Session) : Session :=
  mkSession (run c (Timeout <$> due_by t (due s)) (world s)) (due s).

(** The component is rendered with [userId] at time [t]; the timer of a
    fetch started by the render is due after its delay. *)
Definition render_at (c : Component) (t userId : Z) (s : Session) : Session :=
  let s' := elapse c t s in
  let w' := step c (Render userId) (world s') in
  mkSession w' (due s' ++ ((λ r, t + delay (timer r))
                             <$> drop (length (timers (world s'))) (timers w'))).

(** The component is mounted at time 0. *)
Definition launch (c : Component) (userId : Z) (out : C) : Session :=
  mkSession (mount c userId out)
            ((λ r, 0 + delay (timer r)) <$> timers (mount c userId out)).

(** Renders at given times, each with its identifier. *)
Definition play (c : Component) (rs : list (Z * Z)) (s : Session) : Session :=
  foldl (λ s tu, render_at c tu.1 tu.2 s) s rs.

Definition last_due (s : Session) : Z := foldr Z.max 0 (due s).

(** Time passes until every timer has fired. *)
Definition finish (c : Component) (s : Session) : Session :=
  elapse c (last_due s) s.

(** ** The shell *)

(** [RaceConditionDemo]: its state [userId], and the two children it
    renders with it, each logging to a console of its own. *)
Record Demo := mkDemo { userId : Z; without : Session; with_ : Session }.

(** [useState(1)] and the first render. *)
Definition RaceConditionDemo (out : C) : Demo :=
  mkDemo 1 (launch WithoutCleanup 1 out) (launch WithCleanup 1 out).

(** A click on the button at time [t]: [toggleUser], and a render of both
    children. *)
Definition click (t : Z) (d : Demo) : Demo :=
  mkDemo (toggleUser (userId d))
         (render_at WithoutCleanup t (toggleUser (userId d)) (without d))
         (render_at WithCleanup t (toggleUser (userId d)) (with_ d)).

Definition clicks (ts : list Z) (d : Demo) : Demo :=
  foldl (λ d t, click t d) d ts.

(** Every timer of both children has fired. *)
Definition at_rest (d : Demo) : Demo :=
  mkDemo (userId d) (finish WithoutCleanup (without d)) (finish WithCleanup (with_ d)).

End Shell.

Arguments Session : clear implicits.
Arguments Demo : clear implicits.

(** ** Vocabulary of the statements *)

(** The request an effect of [c], run for [userId] when [l] variables were
    declared so far, hands to the runtime. *)
Definition request_of (c : Component) (userId : Z) (l : nat) : Request :=
  match c with
  | WithoutCleanup =>
      mkRequest (mkTimer (fetch_delay userId)
                   (red "[WITHOUT CLEANUP]" +:+ "Received data for user " +:+ pretty userId)
                   (fetch_result userId))
                (WithoutCleanup_then userId) false
  | WithCleanup =>
      mkRequest (mkTimer (fetch_delay userId)
                   (green "[WITH CLEANUP]" +:+ "Received data for user " +:+ pretty userId)
                   (fetch_result userId))
                (WithCleanup_then userId l) false
  end.

(** [r] is that request, settled or not. *)
Definition made_by (c : Component) (userId : Z) (l : nat) (r : Request) : Prop :=
  timer r = timer (request_of c userId l) ∧ callback r = callback (request_of c userId l).

(** Events that are neither a render nor an unmount. *)
Definition quiet (e : event) : bool :=
  match e with
  | Timeout _ | Fail _ => true
  | Render _ | Unmount => false
  end.

(** Events of a run in which no promise rejects and nothing is unmounted. *)
Definition calm (e : event) : bool :=
  match e with
  | Render _ | Timeout _ => true
  | Fail _ | Unmount => false
  end.

(** Quiet events that leave invocation [k] alone. *)
Definition spares (k : nat) (e : event) : bool :=
  match e with
  | Timeout j | Fail j => bool_decide (j ≠ k)
  | Render _ | Unmount => false
  end.

Section Vocabulary.
Context {C : Type}.

(** The index of the invocation started last. *)
Definition latest (w : World C) : nat := pred (length (timers w)).

(** Whether a callback, run now, gets past its guard. *)
Definition passes (cb : Callback) (w : World C) : bool :=
  match cb with
  | WithoutCleanup_then _ => true
  | WithCleanup_then _ isMounted => default false (heap w !! isMounted)
  end.

(** No invocation is outstanding. *)
Definition idle (w : World C) : bool := forallb settled (timers w).

(** The world without its console. *)
Definition core (w : World C) : World unit :=
  mkWorld (data w) (loading w) (props w) (mounted w) (cleanup w)
          (heap w) (timers w) tt.

(** What every run of [WithCleanup] keeps true. *)
Record guarded (w : World C) : Prop := {
  g_length : length (heap w) = length (timers w);
  g_request : ∀ k r, timers w !! k = Some r → ∃ u, made_by WithCleanup u k r;
  g_flag : ∀ l, heap w !! l = Some true → mounted w = true ∧ l = latest w;
  g_current : mounted w = true →
    heap w !! latest w = Some true ∧
    cleanup w = Some (WithCleanup_cleanup (props w) (latest w)) ∧
    ∃ r, timers w !! latest w = Some r ∧ made_by WithCleanup (props w) (latest w) r;
  g_shown : loading w = false →
    data w = Some (fetch_result (props w)) ∧
    settled <$> timers w !! latest w = Some true
}.

(** What a run of [WithCleanup] keeps true as long as no promise rejects
    and nothing is unmounted: once the latest invocation is settled, the
    loading is over. *)
Definition responsive (w : World C) : Prop :=
  mounted w = true ∧
  (settled <$> timers w !! latest w = Some true → loading w = false).

(** Only the invocation started last can be outstanding. *)
Definition only_latest (w : World C) : Prop :=
  ∀ k r, timers w !! k = Some r → settled r = false → k = latest w.

(** Two instances that show the same and have the same invocations
    outstanding, with the same values to come. *)
Definition twin (w1 w2 : World C) : Prop :=
  data w1 = data w2 ∧ loading w1 = loading w2 ∧ props w1 = props w2 ∧
  mounted w1 = mounted w2 ∧
  settled <$> timers w1 = settled <$> timers w2 ∧
  (λ r, value (timer r)) <$> timers w1 = (λ r, value (timer r)) <$> timers w2.

(** What every run of [WithoutCleanup] keeps true. *)
Record unguarded (w : World C) : Prop := {
  u_request : ∀ k r, timers w !! k = Some r → ∃ u, made_by WithoutCleanup u k r;
  u_current : mounted w = true →
    ∃ r, timers w !! latest w = Some r ∧ made_by WithoutCleanup (props w) (latest w) r;
  u_cleanup : cleanup w = None;
  u_heap : heap w = []
}.
End Vocabulary.

(** A run in which the identifier only changes when no invocation is
    outstanding. *)
Fixpoint unhurried {C : Type} `{!Sink C} (c : Component) (es : list event)
    (w : World C) : bool :=
  match es with
  | [] => true
  | e :: es' =>
      match e with
      | Render u => bool_decide (u = props w) || idle w
      | _ => true
      end && unhurried c es' (step c e w)
  end.

(** A session that began with the mount of [c] and went on with renders and
    timers: one due time per invocation. *)
Definition reached {C : Type} `{!Sink C} (c : Component) (u0 : Z) (out : C)
    (s : Session C) : Prop :=
  length (due s) = length (timers (world s)) ∧
  ∃ es, forallb calm es = true ∧ world s = run c es (mount c u0 out).

(** ** Running the demo: user 1, then user 2 one click later *)

Definition demo (c : Component) : World (list string) :=
  run c [Render 2; Timeout 1%nat; Timeout 0%nat] (mount c 1 []).

Example demo_WithCleanup : display (demo WithCleanup) = (Some (fetch_result 2), false).
Proof. reflexivity. Qed.

Example demo_WithoutCleanup : display (demo WithoutCleanup) = (Some (fetch_result 1), false).
Proof. reflexivity. Qed.

(** ** How each operation changes the world *)

Ltac prog :=
  cbv beta iota zeta delta
    [start teardown unmount effect_of WithCleanup_effect WithoutCleanup_effect exec
     run_callback on_settled on_timeout run_cleanup fetchUser fetchUserData
     mbind mret M_bind M_ret log setData setLoading declare read assign
     then_ settle fst snd default from_option request_of
     data loading props mounted cleanup heap timers console
     timer callback settled].

Section Facts.
Context {C : Type} `{!Sink C}.
Implicit Types (w : World C) (u userId : Z) (k l : nat) (c : Component)
  (cb : Callback) (e : event) (es : list event) (v : UserData).

Lemma run_callback_spec cb v w :
  let w' := exec (run_callback cb v) w in
  data w' = (if mounted w && passes cb w then Some v else data w) ∧
  loading w' = (if mounted w && passes cb w then false else loading w) ∧
  props w' = props w ∧ mounted w' = mounted w ∧ cleanup w' = cleanup w ∧
  heap w' = heap w ∧ timers w' = timers w.
Proof.
  destruct w as [d lo p m cl h ts out], cb as [u|u l]; cbn [passes heap mounted].
  - destruct m; prog; done.
  - destruct (h !! l) as [[]|] eqn:E; destruct m; prog; rewrite E; prog; done.
Qed.

Lemma start_spec c u w :
  let w' := start c u w in
  data w' = data w ∧
  loading w' = (if mounted w then true else loading w) ∧
  props w' = u ∧ mounted w' = mounted w ∧
  cleanup w' = match c with
               | WithoutCleanup => None
               | WithCleanup => Some (WithCleanup_cleanup u (length (heap w)))
               end ∧
  heap w' = match c with WithoutCleanup => heap w | WithCleanup => heap w ++ [true] end ∧
  timers w' = timers w ++ [request_of c u (length (heap w))].
Proof.
  destruct w as [d lo p m cl h ts out], c, m; prog; done.
Qed.

Lemma teardown_spec w :
  let w' := teardown w in
  data w' = data w ∧ loading w' = loading w ∧ props w' = props w ∧
  mounted w' = mounted w ∧ cleanup w' = None ∧
  heap w' = match cleanup w with
            | Some (WithCleanup_cleanup _ isMounted) => <[isMounted:=false]> (heap w)
            | None => heap w
            end ∧
  timers w' = timers w.
Proof.
  destruct w as [d lo p m [[u l]|] h ts out]; prog; done.
Qed.

Lemma fire_spec k w :
  match timers w !! k with
  | Some r =>
      if settled r then fire k w = w
      else
        let w' := fire k w in
        data w' = (if mounted w && passes (callback r) w
                   then Some (value (timer r)) else data w) ∧
        loading w' = (if mounted w && passes (callback r) w then false else loading w) ∧
        props w' = props w ∧ mounted w' = mounted w ∧ cleanup w' = cleanup w ∧
        heap w' = heap w ∧ timers w' = alter mark_settled k (timers w)
  | None => fire k w = w
  end.
Proof.
  unfold fire. destruct (timers w !! k) as [[t cb s]|] eqn:E; [|done].
  cbn [settled]. destruct s; [done|].
  cbn [callback timer].
  destruct w as [d lo p m cl h ts out], cb as [u|u l]; cbn [passes heap mounted].
  - destruct m; prog; done.
  - destruct (h !! l) as [[]|] eqn:E'; destruct m; prog; rewrite E'; prog; done.
Qed.

Lemma reject_spec k w :
  match timers w !! k with
  | Some r =>
      if settled r then reject k w = w
      else
        let w' := reject k w in
        data w' = data w ∧ loading w' = loading w ∧
        props w' = props w ∧ mounted w' = mounted w ∧ cleanup w' = cleanup w ∧
        heap w' = heap w ∧ timers w' = alter mark_settled k (timers w)
  | None => reject k w = w
  end.
Proof.
  unfold reject. destruct (timers w !! k) as [[t cb s]|] eqn:E; [|done].
  cbn [settled]. destruct s; [done|].
  destruct w as [d lo p m cl h ts out]; prog; done.
Qed.

Lemma unmount_spec w :
  mounted w = true →
  let w' := unmount w in
  data w' = data w ∧ loading w' = loading w ∧ props w' = props w ∧
  mounted w' = false ∧ cleanup w' = None ∧
  heap w' = match cleanup w with
            | Some (WithCleanup_cleanup _ isMounted) => <[isMounted:=false]> (heap w)
            | None => heap w
            end ∧
  timers w' = timers w.
Proof.
  destruct w as [d lo p m [[u l]|] h ts out]; cbn [mounted]; intros ->; prog; done.
Qed.

Lemma run_app c es1 es2 w : run c (es1 ++ es2) w = run c es2 (run c es1 w).
Proof. apply foldl_app. Qed.

Lemma run_cons c e es w : run c (e :: es) w = run c es (step c e w).
Proof. done. Qed.

Lemma run_snoc c e es w : run c (es ++ [e]) w = step c e (run c es w).
Proof. by rewrite run_app. Qed.
End Facts.

(** ** The invariant of WithCleanup *)

Section Guarded.
Context {C : Type} `{!Sink C}.
Implicit Types (w : World C) (u userId : Z) (k l : nat) (c : Component)
  (cb : Callback) (e : event) (es : list event) (v : UserData).

Lemma guarded_start u w :
  length (heap w) = length (timers w) →
  (∀ k r, timers w !! k = Some r → ∃ u, made_by WithCleanup u k r) →
  (∀ l, heap w !! l ≠ Some true) →
  mounted w = true →
  guarded (start WithCleanup u w).
Proof.
  intros Hlen Hreq Hdead Hm.
  destruct (start_spec WithCleanup u w) as (Hd & Hl & Hp & Hm' & Hcl & Hh & Ht).
  assert (Hlast : latest (start WithCleanup u w) = length (timers w)).
  { unfold latest. rewrite Ht, length_app. simpl. lia. }
  split.
  - rewrite Hh, Ht, !length_app. simpl. lia.
  - intros k r. rewrite Ht. intros [[_ Hk]|[-> [= <-]]]%lookup_snoc_Some.
    { apply Hreq, Hk. }
    exists u. rewrite Hlen. by split.
  - intros l. rewrite Hh, Hm', Hlast. intros [[_ Hk]|[-> _]]%lookup_snoc_Some.
    { by destruct (Hdead l). }
    done.
  - intros _. rewrite Hlast, Hh, Hcl, Hp, Ht, <- Hlen.
    rewrite !list_lookup_middle by done.
    split_and!; [done..|]. eexists; split; [done|by split].
  - rewrite Hl, Hm. done.
Qed.

Lemma guarded_mount u (out : C) : guarded (mount WithCleanup u out).
Proof. by apply guarded_start. Qed.

(** After the teardown no variable is true any more. *)
Lemma guarded_teardown w l :
  guarded w → mounted w = true → heap (teardown w) !! l ≠ Some true.
Proof.
  intros G Hm. destruct (teardown_spec w) as (_ & _ & _ & _ & _ & Hh & _).
  destruct (g_current w G Hm) as (Hlive & Hcl & _).
  rewrite Hh, Hcl. intros Hl.
  apply list_lookup_insert_Some in Hl as [(_ & [=] & _)|[Hne Hl]].
  by apply (g_flag w G) in Hl as [_ ?].
Qed.

Lemma guarded_render u w : guarded w → guarded (render WithCleanup u w).
Proof.
  intros G. unfold render. destruct (mounted w) eqn:Hm; [|done].
  case_bool_decide; [done|].
  destruct (teardown_spec w) as (_ & _ & _ & Hm' & _ & Hh & Ht).
  apply guarded_start.
  - rewrite Hh, Ht, <- (g_length w G). destruct (cleanup w) as [[]|]; [|done].
    apply length_insert.
  - rewrite Ht. apply G.
  - intros l. by apply guarded_teardown.
  - by rewrite Hm'.
Qed.

Lemma guarded_unmount w : guarded w → guarded (unmount w).
Proof.
  intros G. destruct (mounted w) eqn:Hm; [|by unfold unmount; rewrite Hm].
  destruct (unmount_spec w Hm) as (Hd & Hl & Hp & Hm' & Hcl & Hh & Ht).
  assert (Hdead : ∀ l, heap (unmount w) !! l ≠ Some true).
  { intros l. rewrite Hh.
    destruct (teardown_spec w) as (_ & _ & _ & _ & _ & <- & _).
    by apply guarded_teardown. }
  split.
  - rewrite Hh, Ht, <- (g_length w G). destruct (cleanup w) as [[]|]; [|done].
    apply length_insert.
  - rewrite Ht. apply G.
  - intros l Hf. by destruct (Hdead l).
  - by rewrite Hm'.
  - unfold latest. rewrite Hl, Hd, Hp, Ht. apply G.
Qed.

(** A callback of [WithCleanup] that passes its guard belongs to the
    invocation started last, and the instance is mounted. *)
Lemma guarded_passes w k r :
  guarded w → timers w !! k = Some r → passes (callback r) w = true →
  mounted w = true ∧ k = latest w ∧ made_by WithCleanup (props w) k r.
Proof.
  intros G Hk Hp. destruct (g_request w G k r Hk) as (u & Ht & Hcb).
  rewrite Hcb in Hp. cbn in Hp.
  destruct (heap w !! k) as [[]|] eqn:Hf; try done.
  destruct (g_flag w G k Hf) as [Hm ->].
  split_and!; [done..|].
  destruct (g_current w G Hm) as (_ & _ & r' & Hr' & Hmade).
  congruence.
Qed.

Lemma guarded_fire k w : guarded w → guarded (fire k w).
Proof.
  intros G. pose proof (fire_spec k w) as S.
  destruct (timers w !! k) as [r|] eqn:Hk; [|by rewrite S].
  destruct (settled r) eqn:Hs; [by rewrite S|].
  destruct S as (Hd & Hl & Hp & Hm & Hcl & Hh & Ht).
  assert (Hlast : latest (fire k w) = latest w).
  { unfold latest. by rewrite Ht, length_alter. }
  split.
  - rewrite Hh, Ht, length_alter. apply G.
  - intros j r'. rewrite Ht, list_lookup_alter. case_decide as Hj.
    + subst j. rewrite Hk. intros [= <-]. apply (g_request w G k r Hk).
    + apply G.
  - intros l. rewrite Hh, Hm, Hlast. apply G.
  - rewrite Hm, Hlast, Hh, Hcl, Hp, Ht. intros Hm'.
    destruct (g_current w G Hm') as (? & ? & r' & Hr' & Hmade).
    split_and!; [done..|]. rewrite list_lookup_alter. case_decide as Hj.
    + subst k. rewrite Hr'. eexists; split; [done|]. apply Hmade.
    + eauto.
  - rewrite Hl, Hd, Hp, Hlast, Ht.
    destruct (mounted w && passes (callback r) w) eqn:Hpass.
    + apply andb_prop in Hpass as [_ Hpass].
      destruct (guarded_passes w k r G Hk Hpass) as (_ & -> & Hv & _).
      intros _. rewrite Hv, list_lookup_alter_eq, Hk. done.
    + intros Hlo. destruct (g_shown w G Hlo) as [? Hset]. split; [done|].
      rewrite list_lookup_alter. case_decide as Hj; [|done].
      subst k. rewrite Hk. done.
Qed.

Lemma guarded_reject k w : guarded w → guarded (reject k w).
Proof.
  intros G. pose proof (reject_spec k w) as S.
  destruct (timers w !! k) as [r|] eqn:Hk; [|by rewrite S].
  destruct (settled r) eqn:Hs; [by rewrite S|].
  destruct S as (Hd & Hl & Hp & Hm & Hcl & Hh & Ht).
  assert (Hlast : latest (reject k w) = latest w).
  { unfold latest. by rewrite Ht, length_alter. }
  split.
  - rewrite Hh, Ht, length_alter. apply G.
  - intros j r'. rewrite Ht, list_lookup_alter. case_decide as Hj.
    + subst j. rewrite Hk. intros [= <-]. apply (g_request w G k r Hk).
    + apply G.
  - intros l. rewrite Hh, Hm, Hlast. apply G.
  - rewrite Hm, Hlast, Hh, Hcl, Hp, Ht. intros Hm'.
    destruct (g_current w G Hm') as (? & ? & r' & Hr' & Hmade).
    split_and!; [done..|]. rewrite list_lookup_alter. case_decide as Hj.
    + subst k. rewrite Hr'. eexists; split; [done|]. apply Hmade.
    + eauto.
  - rewrite Hl, Hd, Hp, Hlast, Ht.
    intros Hlo. destruct (g_shown w G Hlo) as [? Hset]. split; [done|].
    rewrite list_lookup_alter. case_decide as Hj; [|done].
    subst k. rewrite Hk. done.
Qed.

Lemma guarded_step e w : guarded w → guarded (step WithCleanup e w).
Proof.
  destruct e; cbn [step];
    auto using guarded_render, guarded_fire, guarded_reject, guarded_unmount.
Qed.

Lemma guarded_run es w : guarded w → guarded (run WithCleanup es w).
Proof.
  revert w. induction es as [|e es IH]; intros w G; [done|].
  rewrite run_cons. by apply IH, guarded_step.
Qed.

Lemma guarded_reachable es u (out : C) :
  guarded (run WithCleanup es (mount WithCleanup u out)).
Proof. apply guarded_run, guarded_mount. Qed.
End Guarded.

(** ** Events that are not renders *)

Section Quiet.
Context {C : Type} `{!Sink C}.
Implicit Types (w : World C) (u userId : Z) (k l : nat) (c : Component)
  (cb : Callback) (e : event) (es : list event) (v : UserData).

Lemma spares_quiet k e : spares k e = true → quiet e = true.
Proof. by destruct e. Qed.

(** A quiet event touches the two state cells and the settled marks only. *)
Lemma quiet_step c e w :
  quiet e = true →
  props (step c e w) = props w ∧ mounted (step c e w) = mounted w ∧
  cleanup (step c e w) = cleanup w ∧ heap (step c e w) = heap w ∧
  length (timers (step c e w)) = length (timers w).
Proof.
  destruct e as [u|k|k|]; try done; intros _; cbn [step].
  - pose proof (fire_spec k w) as S.
    destruct (timers w !! k) as [r|]; [|by rewrite S].
    destruct (settled r); [by rewrite S|].
    destruct S as (_ & _ & -> & -> & -> & -> & ->). by rewrite length_alter.
  - pose proof (reject_spec k w) as S.
    destruct (timers w !! k) as [r|]; [|by rewrite S].
    destruct (settled r); [by rewrite S|].
    destruct S as (_ & _ & -> & -> & -> & -> & ->). by rewrite length_alter.
Qed.

Lemma quiet_run c es w :
  forallb quiet es = true →
  props (run c es w) = props w ∧ mounted (run c es w) = mounted w ∧
  cleanup (run c es w) = cleanup w ∧ heap (run c es w) = heap w ∧
  length (timers (run c es w)) = length (timers w).
Proof.
  revert w. induction es as [|e es IH]; intros w; [done|].
  cbn [forallb]. intros [He Hes]%andb_prop. rewrite run_cons.
  destruct (IH (step c e w) Hes) as (-> & -> & -> & -> & ->).
  by apply quiet_step.
Qed.

Lemma latest_quiet_run c es w :
  forallb quiet es = true → latest (run c es w) = latest w.
Proof.
  intros Hes. unfold latest.
  by destruct (quiet_run c es w Hes) as (_ & _ & _ & _ & ->).
Qed.

(** An event that spares [k] leaves the [k]-th invocation as it is. *)
Lemma spares_step c k e w :
  spares k e = true → timers (step c e w) !! k = timers w !! k.
Proof.
  destruct e as [u|j|j|]; try done; cbn [spares step];
    intros Hj%bool_decide_eq_true.
  - pose proof (fire_spec j w) as S.
    destruct (timers w !! j) as [r|]; [|by rewrite S].
    destruct (settled r); [by rewrite S|].
    destruct S as (_ & _ & _ & _ & _ & _ & ->). by apply list_lookup_alter_ne.
  - pose proof (reject_spec j w) as S.
    destruct (timers w !! j) as [r|]; [|by rewrite S].
    destruct (settled r); [by rewrite S|].
    destruct S as (_ & _ & _ & _ & _ & _ & ->). by apply list_lookup_alter_ne.
Qed.

Lemma spares_run c k es w :
  forallb (spares k) es = true → timers (run c es w) !! k = timers w !! k.
Proof.
  revert w. induction es as [|e es IH]; intros w; [done|].
  cbn [forallb]. intros [He Hes]%andb_prop. rewrite run_cons, (IH _ Hes).
  by apply spares_step.
Qed.

Lemma forallb_spares_quiet k es :
  forallb (spares k) es = true → forallb quiet es = true.
Proof.
  induction es as [|e es IH]; [done|]. cbn [forallb].
  intros [He Hes]%andb_prop. by rewrite (spares_quiet k e He), IH.
Qed.

(** Once [WithCleanup] shows a result, quiet events leave it on display:
    the only callback that could pass belongs to a settled promise. *)
Lemma guarded_quiet_step e w :
  guarded w → quiet e = true → loading w = false →
  display (step WithCleanup e w) = display w.
Proof.
  intros G He Hlo. destruct (g_shown w G Hlo) as [Hd Hset].
  destruct e as [u|k|k|]; try done; cbn [step]; unfold display.
  - pose proof (fire_spec k w) as S.
    destruct (timers w !! k) as [r|] eqn:Hk; [|by rewrite S].
    destruct (settled r) eqn:Hs; [by rewrite S|].
    destruct S as (-> & -> & _).
    destruct (mounted w && passes (callback r) w) eqn:Hpass; [|done].
    apply andb_prop in Hpass as [_ Hpass].
    destruct (guarded_passes w k r G Hk Hpass) as (_ & -> & _).
    rewrite Hk in Hset. cbn in Hset. congruence.
  - pose proof (reject_spec k w) as S.
    destruct (timers w !! k) as [r|] eqn:Hk; [|by rewrite S].
    destruct (settled r) eqn:Hs; [by rewrite S|].
    by destruct S as (-> & -> & _).
Qed.

Lemma guarded_quiet_run es w :
  guarded w → forallb quiet es = true → loading w = false →
  display (run WithCleanup es w) = display w.
Proof.
  revert w. induction es as [|e es IH]; intros w G; [done|].
  cbn [forallb]. intros [He Hes]%andb_prop Hlo. rewrite run_cons.
  pose proof (guarded_quiet_step e w G He Hlo) as Hstep.
  rewrite IH; [done|by apply guarded_step|done|].
  unfold display in Hstep. congruence.
Qed.

(** While the latest promise of [WithCleanup] is left alone, nothing is
    applied. *)
Lemma guarded_spares_step e w :
  guarded w → spares (latest w) e = true →
  display (step WithCleanup e w) = display w.
Proof.
  intros G He.
  destruct e as [u|k|k|]; try done; cbn [step]; unfold display;
    cbn [spares] in He; apply bool_decide_eq_true in He.
  - pose proof (fire_spec k w) as S.
    destruct (timers w !! k) as [r|] eqn:Hk; [|by rewrite S].
    destruct (settled r) eqn:Hs; [by rewrite S|].
    destruct S as (-> & -> & _).
    destruct (mounted w && passes (callback r) w) eqn:Hpass; [|done].
    apply andb_prop in Hpass as [_ Hpass].
    by destruct (guarded_passes w k r G Hk Hpass) as (_ & ? & _).
  - pose proof (reject_spec k w) as S.
    destruct (timers w !! k) as [r|] eqn:Hk; [|by rewrite S].
    destruct (settled r) eqn:Hs; [by rewrite S|].
    by destruct S as (-> & -> & _).
Qed.

Lemma guarded_spares_run es w :
  guarded w → forallb (spares (latest w)) es = true →
  display (run WithCleanup es w) = display w.
Proof.
  revert w. induction es as [|e es IH]; intros w G; [done|].
  cbn [forallb]. intros [He Hes]%andb_prop. rewrite run_cons.
  rewrite IH; [by apply guarded_spares_step|by apply guarded_step|].
  assert (latest (step WithCleanup e w) = latest w) as ->; [|done].
  apply (latest_quiet_run WithCleanup [e]). cbn. by rewrite (spares_quiet _ _ He).
Qed.

(** The latest promise of a mounted [WithCleanup] is fulfilled: its result
    goes on display. *)
Lemma guarded_fire_latest w :
  guarded w → mounted w = true →
  settled <$> timers w !! latest w = Some false →
  display (fire (latest w) w) = (Some (fetch_result (props w)), false).
Proof.
  intros G Hm Hpend. destruct (g_current w G Hm) as (Hf & _ & r & Hr & Ht & Hcb).
  pose proof (fire_spec (latest w) w) as S. rewrite Hr in S, Hpend.
  cbn in Hpend. injection Hpend as Hs. rewrite Hs in S. destruct S as (Hd & Hl & _).
  unfold display. rewrite Hd, Hl, Hm, Hcb, Ht. cbn. by rewrite Hf.
Qed.

(** A render of a mounted [WithCleanup] with another [userId]: a new
    invocation, pending, is the latest, and the component is loading. *)
Lemma guarded_render_new u w :
  guarded w → mounted w = true → u ≠ props w →
  let w' := render WithCleanup u w in
  mounted w' = true ∧ props w' = u ∧ loading w' = true ∧ data w' = data w ∧
  latest w' = S (latest w) ∧
  settled <$> timers w' !! latest w' = Some false.
Proof.
  intros G Hm Hu. unfold render. rewrite Hm, bool_decide_eq_false_2 by done.
  destruct (teardown_spec w) as (Hd1 & Hl1 & Hp1 & Hm1 & Hcl1 & Hh1 & Ht1).
  destruct (start_spec WithCleanup u (teardown w)) as (-> & -> & -> & -> & _ & _ & Ht).
  destruct (g_current w G Hm) as (_ & _ & r & Hr%lookup_lt_Some & _).
  assert (Hlast : latest (start WithCleanup u (teardown w)) = S (latest w)).
  { unfold latest in *. rewrite Ht, Ht1, length_app. simpl. lia. }
  cbn zeta. rewrite Hlast, Hm1, Hm, Hd1. split_and!; try done.
  rewrite Ht, Ht1. unfold latest in *.
  replace (S (pred (length (timers w)))) with (length (timers w)) by lia.
  by rewrite list_lookup_middle.
Qed.
End Quiet.

(** ** The invariant of WithoutCleanup *)

Section Unguarded.
Context {C : Type} `{!Sink C}.
Implicit Types (w : World C) (u userId : Z) (k l : nat) (c : Component)
  (cb : Callback) (e : event) (es : list event) (v : UserData).

Lemma unguarded_start u w :
  (∀ k r, timers w !! k = Some r → ∃ u, made_by WithoutCleanup u k r) →
  heap w = [] →
  unguarded (start WithoutCleanup u w).
Proof.
  intros Hreq Hheap.
  destruct (start_spec WithoutCleanup u w) as (Hd & Hl & Hp & Hm' & Hcl & Hh & Ht).
  assert (Hlast : latest (start WithoutCleanup u w) = length (timers w)).
  { unfold latest. rewrite Ht, length_app. simpl. lia. }
  split.
  - intros k r. rewrite Ht. intros [[_ Hk]|[-> [= <-]]]%lookup_snoc_Some.
    { apply Hreq, Hk. }
    by exists u.
  - intros _. rewrite Hlast, Hp, Ht, list_lookup_middle by done.
    by eexists.
  - done.
  - by rewrite Hh.
Qed.

Lemma unguarded_mount u (out : C) : unguarded (mount WithoutCleanup u out).
Proof. by apply unguarded_start. Qed.

Lemma unguarded_render u w : unguarded w → unguarded (render WithoutCleanup u w).
Proof.
  intros U. unfold render. destruct (mounted w) eqn:Hm; [|done].
  case_bool_decide; [done|].
  destruct (teardown_spec w) as (_ & _ & _ & _ & _ & Hh & Ht).
  rewrite (u_cleanup w U) in Hh.
  apply unguarded_start.
  - rewrite Ht. apply U.
  - rewrite Hh. apply U.
Qed.

Lemma unguarded_unmount w : unguarded w → unguarded (unmount w).
Proof.
  intros U. destruct (mounted w) eqn:Hm; [|by unfold unmount; rewrite Hm].
  destruct (unmount_spec w Hm) as (Hd & Hl & Hp & Hm' & Hcl & Hh & Ht).
  rewrite (u_cleanup w U) in Hh.
  split; [rewrite Ht; apply U|by rewrite Hm'|done|rewrite Hh; apply U].
Qed.

Lemma unguarded_settle w w' k :
  unguarded w →
  props w' = props w → mounted w' = mounted w → cleanup w' = cleanup w →
  heap w' = heap w → timers w' = alter mark_settled k (timers w) →
  unguarded w'.
Proof.
  intros U Hp Hm Hcl Hh Ht.
  assert (Hreq : ∀ j r u, (∃ r0, timers w !! j = Some r0 ∧ made_by WithoutCleanup u j r0) →
                 timers w' !! j = Some r → made_by WithoutCleanup u j r).
  { intros j r u (r0 & Hr0 & Hmade). rewrite Ht, list_lookup_alter.
    case_decide; simplify_eq; rewrite Hr0; intros ?; by simplify_eq/=. }
  split.
  - intros j r Hr. assert (is_Some (timers w !! j)) as [r0 Hr0].
    { apply lookup_lt_is_Some. apply lookup_lt_Some in Hr.
      by rewrite Ht, length_alter in Hr. }
    destruct (u_request w U j r0 Hr0) as [u Hu]. exists u. eauto.
  - rewrite Hm, Hp. intros Hm'. destruct (u_current w U Hm') as (r0 & Hr0 & Hmade).
    assert (Hlast : latest w' = latest w).
    { unfold latest. by rewrite Ht, length_alter. }
    rewrite Hlast.
    assert (is_Some (timers w' !! latest w)) as [r Hr]; [|eauto 6].
    apply lookup_lt_is_Some. rewrite Ht, length_alter.
    by apply lookup_lt_Some in Hr0.
  - rewrite Hcl. apply U.
  - rewrite Hh. apply U.
Qed.

Lemma unguarded_fire k w : unguarded w → unguarded (fire k w).
Proof.
  intros U. pose proof (fire_spec k w) as S.
  destruct (timers w !! k) as [r|] eqn:Hk; [|by rewrite S].
  destruct (settled r) eqn:Hs; [by rewrite S|].
  destruct S as (_ & _ & ? & ? & ? & ? & ?). by eapply unguarded_settle.
Qed.

Lemma unguarded_reject k w : unguarded w → unguarded (reject k w).
Proof.
  intros U. pose proof (reject_spec k w) as S.
  destruct (timers w !! k) as [r|] eqn:Hk; [|by rewrite S].
  destruct (settled r) eqn:Hs; [by rewrite S|].
  destruct S as (_ & _ & ? & ? & ? & ? & ?). by eapply unguarded_settle.
Qed.

Lemma unguarded_step e w : unguarded w → unguarded (step WithoutCleanup e w).
Proof.
  destruct e; cbn [step];
    auto using unguarded_render, unguarded_fire, unguarded_reject, unguarded_unmount.
Qed.

Lemma unguarded_run es w : unguarded w → unguarded (run WithoutCleanup es w).
Proof.
  revert w. induction es as [|e es IH]; intros w U; [done|].
  rewrite run_cons. by apply IH, unguarded_step.
Qed.

Lemma unguarded_reachable es u (out : C) :
  unguarded (run WithoutCleanup es (mount WithoutCleanup u out)).
Proof. apply unguarded_run, unguarded_mount. Qed.

(** A pending promise of a mounted [WithoutCleanup] is fulfilled: its
    value goes on display, whichever invocation it belongs to. *)
Lemma unguarded_fire_any k r w :
  unguarded w → mounted w = true → timers w !! k = Some r → settled r = false →
  display (fire k w) = (Some (value (timer r)), false).
Proof.
  intros U Hm Hk Hs. destruct (u_request w U k r Hk) as (u & _ & Hcb).
  pose proof (fire_spec k w) as S. rewrite Hk, Hs in S.
  destruct S as (Hd & Hl & _). unfold display. by rewrite Hd, Hl, Hm, Hcb.
Qed.

Lemma unguarded_render_new u w :
  unguarded w → mounted w = true → u ≠ props w →
  let w' := render WithoutCleanup u w in
  mounted w' = true ∧ props w' = u ∧
  latest w' = length (timers w) ∧
  (∀ k, (k < length (timers w))%nat → timers w' !! k = timers w !! k) ∧
  settled <$> timers w' !! latest w' = Some false.
Proof.
  intros U Hm Hu. unfold render. rewrite Hm, bool_decide_eq_false_2 by done.
  destruct (teardown_spec w) as (Hd1 & Hl1 & Hp1 & Hm1 & Hcl1 & Hh1 & Ht1).
  destruct (start_spec WithoutCleanup u (teardown w)) as (_ & _ & -> & -> & _ & _ & Ht).
  assert (Hlast : latest (start WithoutCleanup u (teardown w)) = length (timers w)).
  { unfold latest in *. rewrite Ht, Ht1, length_app. simpl. lia. }
  cbn zeta. rewrite Hlast, Hm1, Hm, Ht, Ht1. split_and!; try done.
  - intros k Hk. by apply lookup_app_l.
  - by rewrite list_lookup_middle.
Qed.
End Unguarded.

(** ** Out-of-order completion *)

(** C1.  On a mounted [WithCleanup] showing identifier [A], let the
    identifier change to [B]; let the invocation for [B] resolve, and the
    invocation for [A] resolve after it, with any other timers and failures
    in between and afterwards.  The component ends up displaying the result
    of [B], not loading, and that is not the result of [A]. *)
Theorem WithCleanup_keeps_latest {C : Type} `{!Sink C}
    (out : C) (u0 A B : Z) (es0 n1 n2 n3 : list event) (w0 : World C) :
  w0 = run WithCleanup es0 (mount WithCleanup u0 out) →
  mounted w0 = true → props w0 = A → A ≠ B →
  forallb (spares (S (latest w0))) n1 = true →
  forallb quiet n2 = true → forallb quiet n3 = true →
  ∀ w, w = run WithCleanup
             (Render B :: n1 ++ Timeout (S (latest w0)) :: n2
                ++ Timeout (latest w0) :: n3) w0 →
  display w = (Some (fetch_result B), false) ∧
  id <$> data w = Some B ∧
  data w ≠ Some (fetch_result A) ∧
  props w = B.
Proof.
  intros -> Hm HA HAB Hn1 Hn2 Hn3 w ->.
  set (w0 := run WithCleanup es0 (mount WithCleanup u0 out)) in *.
  assert (G0 : guarded w0) by apply guarded_reachable.
  rewrite run_cons, run_app, run_cons. cbn [step].
  destruct (guarded_render_new B w0 G0 Hm) as (Hm1 & Hp1 & _ & _ & Hk1 & Hpend1);
    [congruence|].
  set (w1 := render WithCleanup B w0) in *.
  assert (G1 : guarded w1) by by apply guarded_render.
  rewrite <- Hk1 in *.
  pose proof (forallb_spares_quiet _ _ Hn1) as Hq1.
  destruct (quiet_run WithCleanup n1 w1 Hq1) as (Hp2 & Hm2 & _).
  pose proof (latest_quiet_run WithCleanup n1 w1 Hq1) as Hk2.
  pose proof (spares_run WithCleanup _ n1 w1 Hn1) as Ht2.
  set (w2 := run WithCleanup n1 w1) in *.
  assert (G2 : guarded w2) by by apply guarded_run.
  rewrite <- Hk2 in *.
  assert (Hshow : display (fire (latest w2) w2) = (Some (fetch_result B), false)).
  { rewrite guarded_fire_latest; [congruence|done|congruence|by rewrite Ht2]. }
  assert (Hq : forallb quiet (n2 ++ Timeout (latest w0) :: n3) = true).
  { rewrite forallb_app. cbn. by rewrite Hn2, Hn3. }
  set (w3 := fire (latest w2) w2) in *.
  destruct (quiet_run WithCleanup _ w3 Hq) as (Hp3 & _).
  destruct (quiet_step WithCleanup (Timeout (latest w2)) w2 eq_refl) as (Hp4 & _).
  cbn [step] in Hp4. fold w3 in Hp4.
  pose proof (guarded_quiet_run _ w3 (guarded_fire _ _ G2) Hq) as Hkeep.
  rewrite Hshow in Hkeep. unfold display in Hkeep at 1.
  assert (Hlo3 : loading w3 = false) by (by injection Hshow).
  injection (Hkeep Hlo3) as Hd Hl.
  unfold display. rewrite Hd, Hl, Hp3, Hp4, Hp2, Hp1.
  split_and!; try done.
  intros [= ?]. congruence.
Qed.

Lemma WithCleanup_keeps_latest_witness :
  let w := run WithCleanup [Render 2; Timeout 1%nat; Timeout 0%nat]
             (mount WithCleanup 1 ([] : list string)) in
  display w = (Some (fetch_result 2), false) ∧
  id <$> data w = Some 2 ∧
  data w ≠ Some (fetch_result 1) ∧
  props w = 2.
Proof.
  pose proof (WithCleanup_keeps_latest [] 1 1 2 [] [] [] []
                (mount WithCleanup 1 ([] : list string))) as H.
  vm_compute in H.
  assert (Hne : 1 = 2 → False) by lia.
  specialize (H eq_refl eq_refl eq_refl Hne eq_refl eq_refl eq_refl _ eq_refl).
  vm_compute in H. vm_compute. exact H.
Defined.

(** C2.  In a mounted [WithoutCleanup], the timer of any pending invocation,
    the latest or not, puts the value of that invocation on display and
    ends the loading.  So when the identifier changes from [A] to [B] and
    the invocation for [A] resolves last, after the one for [B], the
    component ends up displaying the result of [A] for identifier [B]. *)
Theorem WithoutCleanup_keeps_last_resolved {C : Type} `{!Sink C}
    (out : C) (u0 : Z) (es0 : list event) (w0 : World C) :
  w0 = run WithoutCleanup es0 (mount WithoutCleanup u0 out) →
  mounted w0 = true →
  (∀ k r, timers w0 !! k = Some r → settled r = false →
     display (step WithoutCleanup (Timeout k) w0) = (Some (value (timer r)), false) ∧
     ∃ userId, value (timer r) = fetch_result userId) ∧
  (∀ A B n1 n2 w,
     props w0 = A → A ≠ B →
     settled <$> timers w0 !! latest w0 = Some false →
     forallb (spares (latest w0)) n1 = true →
     forallb (spares (latest w0)) n2 = true →
     w = run WithoutCleanup
           (Render B :: n1 ++ Timeout (S (latest w0)) :: n2 ++ [Timeout (latest w0)]) w0 →
     display w = (Some (fetch_result A), false) ∧
     id <$> data w = Some A ∧
     data w ≠ Some (fetch_result B) ∧
     props w = B).
Proof.
  intros -> Hm.
  set (w0 := run WithoutCleanup es0 (mount WithoutCleanup u0 out)) in *.
  assert (U0 : unguarded w0) by apply unguarded_reachable.
  split.
  { intros k r Hk Hs. cbn [step]. split; [by apply unguarded_fire_any|].
    destruct (u_request w0 U0 k r Hk) as (u & -> & _). by exists u. }
  intros A B n1 n2 w HA HAB Hpend Hn1 Hn2 ->.
  destruct (u_current w0 U0 Hm) as (rA & HrA & HtA & _).
  pose proof (lookup_lt_Some _ _ _ HrA) as HkA.
  assert (Hlen : length (timers w0) = S (latest w0)) by (unfold latest in *; lia).
  destruct (unguarded_render_new B w0 U0 Hm) as (Hm1 & Hp1 & Hk1 & Hold & _);
    [congruence|].
  set (mid := n1 ++ Timeout (S (latest w0)) :: n2).
  replace (n1 ++ Timeout (S (latest w0)) :: n2 ++ [Timeout (latest w0)])
    with (mid ++ [Timeout (latest w0)]) by (unfold mid; by rewrite <- app_assoc).
  rewrite run_cons, run_snoc. cbn [step].
  set (w1 := render WithoutCleanup B w0) in *.
  assert (Hmid : forallb (spares (latest w0)) mid = true).
  { unfold mid. rewrite forallb_app. cbn [forallb spares].
    rewrite Hn1, Hn2, bool_decide_eq_true_2 by lia. done. }
  pose proof (forallb_spares_quiet _ _ Hmid) as Hq.
  destruct (quiet_run WithoutCleanup mid w1 Hq) as (Hp2 & Hm2 & _).
  pose proof (spares_run WithoutCleanup _ mid w1 Hmid) as Ht2.
  rewrite Hold, HrA in Ht2 by done.
  set (w2 := run WithoutCleanup mid w1) in *.
  assert (U2 : unguarded w2) by by apply unguarded_run, unguarded_render.
  rewrite HrA in Hpend. cbn in Hpend. injection Hpend as HsA.
  assert (Hshow : display (fire (latest w0) w2) = (Some (fetch_result A), false)).
  { rewrite (unguarded_fire_any _ rA); [|done|congruence|done..].
    by rewrite HtA, HA. }
  destruct (quiet_step WithoutCleanup (Timeout (latest w0)) w2 eq_refl) as (Hp3 & _).
  cbn [step] in Hp3. unfold display in *. injection Hshow as Hd Hl.
  rewrite Hd, Hl, Hp3, Hp2, Hp1. split_and!; try done.
  intros [= ?]. congruence.
Qed.

Lemma WithoutCleanup_keeps_last_resolved_witness :
  let w := run WithoutCleanup [Render 2; Timeout 1%nat; Timeout 0%nat]
             (mount WithoutCleanup 1 ([] : list string)) in
  display w = (Some (fetch_result 1), false) ∧
  id <$> data w = Some 1 ∧
  data w ≠ Some (fetch_result 2) ∧
  props w = 2.
Proof.
  pose (w0 := mount WithoutCleanup 1 ([] : list string)).
  assert (Hm : mounted w0 = true) by (vm_compute; reflexivity).
  assert (Hp : props w0 = 1) by (vm_compute; reflexivity).
  assert (Hne : 1 ≠ 2) by lia.
  assert (Hpend : settled <$> timers w0 !! latest w0 = Some false)
    by (vm_compute; reflexivity).
  pose proof (proj2 (WithoutCleanup_keeps_last_resolved [] 1 [] w0 eq_refl Hm)
                1 2 [] [] _ Hp Hne Hpend eq_refl eq_refl eq_refl) as H.
  vm_compute in H. vm_compute. exact H.
Defined.

(** ** The liveness flags *)

Section Flags.
Context {C : Type} `{!Sink C}.
Implicit Types (w : World C) (u userId : Z) (k l : nat) (c : Component)
  (cb : Callback) (e : event) (es : list event) (v : UserData).

Lemma filter_true_nil (h : list bool) :
  (∀ l, h !! l ≠ Some true) → filter (λ b, b = true) h = [].
Proof.
  induction h as [|b h IH]; intros Hh; [done|].
  rewrite filter_cons. destruct (decide (b = true)) as [->|_].
  - by destruct (Hh 0%nat).
  - apply IH. intros l. apply (Hh (S l)).
Qed.

(** If only the last element can be true, at most one is. *)
Lemma filter_true_last (h : list bool) :
  (∀ l, h !! l = Some true → l = pred (length h)) →
  (length (filter (λ b, b = true) h) ≤ 1)%nat.
Proof.
  destruct h as [|b h _] using rev_ind; intros Hh; [cbn; lia|].
  rewrite filter_app, filter_true_nil.
  - rewrite filter_cons, filter_nil. case_decide; cbn; lia.
  - intros l Hl. pose proof (lookup_lt_Some _ _ _ Hl) as Hlt.
    specialize (Hh l). rewrite lookup_app_l, length_app in Hh by done.
    cbn in Hh. specialize (Hh Hl). lia.
Qed.

Lemma teardown_false l w :
  heap w !! l = Some false → heap (teardown w) !! l = Some false.
Proof.
  intros Hl. destruct (teardown_spec w) as (_ & _ & _ & _ & _ & -> & _).
  destruct (cleanup w) as [[u j]|]; [|done].
  destruct (decide (j = l)) as [->|Hne].
  - apply list_lookup_insert_eq. by apply lookup_lt_Some in Hl.
  - by rewrite list_lookup_insert_ne.
Qed.

Lemma start_false c u l w :
  heap w !! l = Some false → heap (start c u w) !! l = Some false.
Proof.
  intros Hl. destruct (start_spec c u w) as (_ & _ & _ & _ & _ & -> & _).
  destruct c; [done|]. by apply lookup_app_l_Some.
Qed.

(** No event makes a false flag true. *)
Lemma step_false c e l w :
  heap w !! l = Some false → heap (step c e w) !! l = Some false.
Proof.
  intros Hl. destruct e as [u|k|k|].
  - cbn [step]. unfold render. destruct (mounted w); [|done].
    case_bool_decide; [done|]. by apply start_false, teardown_false.
  - by destruct (quiet_step c (Timeout k) w eq_refl) as (_ & _ & _ & -> & _).
  - by destruct (quiet_step c (Fail k) w eq_refl) as (_ & _ & _ & -> & _).
  - cbn [step]. unfold unmount. destruct (mounted w); [|done]. cbn [heap].
    by apply teardown_false.
Qed.

Lemma run_false c es l w :
  heap w !! l = Some false → heap (run c es w) !! l = Some false.
Proof.
  revert w. induction es as [|e es IH]; intros w Hl; [done|].
  rewrite run_cons. by apply IH, step_false.
Qed.

(** The teardown that precedes a new effect turns the latest flag off. *)
Lemma guarded_teardown_latest w :
  guarded w → mounted w = true → heap (teardown w) !! latest w = Some false.
Proof.
  intros G Hm. destruct (g_current w G Hm) as (Hf & Hcl & _).
  destruct (teardown_spec w) as (_ & _ & _ & _ & _ & -> & _). rewrite Hcl.
  apply list_lookup_insert_eq. by apply lookup_lt_Some in Hf.
Qed.

Lemma render_new c u w :
  mounted w = true → u ≠ props w → step c (Render u) w = start c u (teardown w).
Proof.
  intros Hm Hu. cbn [step]. unfold render.
  by rewrite Hm, bool_decide_eq_false_2.
Qed.
End Flags.

(** C3.  After any events on a [WithCleanup] instance there is one
    [isMounted] per invocation started, at most one of them is true, and
    that one belongs to the invocation started last.  When the identifier
    changes, the step is the teardown followed by the new effect: in the
    state the effect starts from, the invocation for the new identifier is
    not started yet and every flag, the one of the previous cycle included,
    is false. *)
Theorem WithCleanup_one_live_flag {C : Type} `{!Sink C}
    (out : C) (u0 : Z) (es : list event) (w : World C) :
  w = run WithCleanup es (mount WithCleanup u0 out) →
  length (heap w) = length (timers w) ∧
  (length (filter (λ b, b = true) (heap w)) ≤ 1)%nat ∧
  (∀ l, heap w !! l = Some true → l = latest w) ∧
  (∀ B, mounted w = true → B ≠ props w →
     step WithCleanup (Render B) w = start WithCleanup B (teardown w) ∧
     timers (teardown w) = timers w ∧
     heap (teardown w) !! latest w = Some false ∧
     (∀ l, heap (teardown w) !! l ≠ Some true) ∧
     timers (start WithCleanup B (teardown w))
       = timers w ++ [request_of WithCleanup B (S (latest w))]).
Proof.
  intros ->. set (w := run WithCleanup es (mount WithCleanup u0 out)).
  assert (G : guarded w) by apply guarded_reachable.
  assert (Hlast : ∀ l, heap w !! l = Some true → l = latest w).
  { intros l Hl. by destruct (g_flag w G l Hl). }
  split_and!.
  - apply G.
  - apply filter_true_last. intros l Hl. rewrite (g_length w G). by apply Hlast.
  - done.
  - intros B Hm HB.
    destruct (teardown_spec w) as (_ & _ & _ & _ & _ & Hh & Ht).
    destruct (start_spec WithCleanup B (teardown w)) as (_ & _ & _ & _ & _ & _ & Ht').
    split_and!.
    + by apply render_new.
    + done.
    + by apply guarded_teardown_latest.
    + intros l. by apply guarded_teardown.
    + rewrite Ht', Ht. do 2 f_equal.
      destruct (g_current w G Hm) as (Hf%lookup_lt_Some & Hcl & _).
      rewrite (g_length w G) in Hf. rewrite Hh, Hcl, length_insert, (g_length w G).
      f_equal. unfold latest in *. lia.
Qed.

Lemma WithCleanup_one_live_flag_witness :
  (length (filter (λ b, b = true)
             (heap (run WithCleanup [Render 2; Render 1; Timeout 0%nat]
                      (mount WithCleanup 1 ([] : list string))))) ≤ 1)%nat.
Proof.
  exact (proj1 (proj2 (WithCleanup_one_live_flag ([] : list string) 1
                         [Render 2; Render 1; Timeout 0%nat] _ eq_refl))).
Defined.

(** C7.  In any world and under any events a flag that is false stays
    false.  In every run of [WithCleanup] the flag of each invocation but the
    latest is false, and when the identifier changes the flag of the current
    cycle is false in the state the next effect starts from. *)
Theorem WithCleanup_flag_stays_false {C : Type} `{!Sink C}
    (out : C) (u0 : Z) (es : list event) (w : World C) :
  w = run WithCleanup es (mount WithCleanup u0 out) →
  (∀ c es' l (w' : World C),
     heap w' !! l = Some false → heap (run c es' w') !! l = Some false) ∧
  (∀ l, (l < latest w)%nat → heap w !! l = Some false) ∧
  (∀ B, mounted w = true → B ≠ props w →
     step WithCleanup (Render B) w = start WithCleanup B (teardown w) ∧
     heap (teardown w) !! latest w = Some false ∧
     heap (step WithCleanup (Render B) w) !! latest w = Some false ∧
     heap (step WithCleanup (Render B) w) !! S (latest w) = Some true).
Proof.
  intros ->. set (w := run WithCleanup es (mount WithCleanup u0 out)).
  assert (G : guarded w) by apply guarded_reachable.
  split_and!.
  - intros c es' l w'. apply run_false.
  - intros l Hl. assert (is_Some (heap w !! l)) as [[] Hb]; [| |done].
    + apply lookup_lt_is_Some. rewrite (g_length w G). unfold latest in *. lia.
    + destruct (g_flag w G l Hb). lia.
  - intros B Hm HB. rewrite render_new by done.
    pose proof (guarded_teardown_latest w G Hm) as Hoff.
    split_and!; [done..| |].
    + by apply start_false.
    + destruct (start_spec WithCleanup B (teardown w)) as (_ & _ & _ & _ & _ & -> & _).
      destruct (teardown_spec w) as (_ & _ & _ & _ & _ & Hh & _).
      destruct (g_current w G Hm) as (Hf%lookup_lt_Some & Hcl & _).
      assert (Hlen : length (heap (teardown w)) = S (latest w)).
      { rewrite (g_length w G) in Hf. rewrite Hh, Hcl, length_insert, (g_length w G).
        unfold latest in *. lia. }
      rewrite <- Hlen. by apply list_lookup_middle.
Qed.

Lemma WithCleanup_flag_stays_false_witness :
  heap (run WithCleanup [Timeout 0%nat; Render 1; Unmount]
          (run WithCleanup [Render 2] (mount WithCleanup 1 ([] : list string))))
    !! 0%nat = Some false.
Proof.
  assert (Hoff : heap (run WithCleanup [Render 2] (mount WithCleanup 1 ([] : list string)))
                   !! 0%nat = Some false) by (vm_compute; reflexivity).
  exact (proj1 (WithCleanup_flag_stays_false ([] : list string) 1 [Render 2] _ eq_refl)
           WithCleanup [Timeout 0%nat; Render 1; Unmount] 0%nat _ Hoff).
Defined.

(** ** The remote source *)

(** C4.  [fetchUserData] hands back a timer whose callback always fulfils,
    with the record built from [userId]; the delay is a function of [userId]
    (3000 for 1, 1000 otherwise, so 1000 for 2); the call and the timer
    callback change nothing in the world but the console, and neither the
    delay nor the value depends on the world, the console or the message of
    the call. *)
Theorem fetchUserData_contract {C : Type} `{!Sink C}
    (userId : Z) (msg : string) (w w' : World C) :
  fst (on_timeout (fst (fetchUserData userId msg w)) w')
    = Fulfilled {| id := userId;
                   name := "User " +:+ pretty userId;
                   email := "user" +:+ pretty userId +:+ "@example.com" |} ∧
  delay (fst (fetchUserData userId msg w)) = (if bool_decide (userId = 1) then 3000 else 1000) ∧
  delay (fst (fetchUserData 1 msg w)) = 3000 ∧
  delay (fst (fetchUserData 2 msg w)) = 1000 ∧
  value (fst (fetchUserData 1 msg w))
    = {| id := 1; name := "User 1"; email := "user1@example.com" |} ∧
  value (fst (fetchUserData 2 msg w))
    = {| id := 2; name := "User 2"; email := "user2@example.com" |} ∧
  core (snd (fetchUserData userId msg w)) = core w ∧
  core (snd (on_timeout (fst (fetchUserData userId msg w)) w')) = core w' ∧
  (∀ (C' : Type) (S' : Sink C') (msg' : string) (w2 : World C'),
     delay (fst (fetchUserData userId msg' w2)) = delay (fst (fetchUserData userId msg w)) ∧
     value (fst (fetchUserData userId msg' w2)) = value (fst (fetchUserData userId msg w))).
Proof.
  split_and!; try done.
Qed.

(** ** The callbacks *)

Section Callbacks.
Context {C : Type} `{!Sink C}.
Implicit Types (w : World C) (u userId : Z) (k l : nat) (c : Component)
  (cb : Callback) (e : event) (es : list event) (v : UserData).

Lemma core_eq {C' : Type} w (w' : World C') :
  data w = data w' → loading w = loading w' → props w = props w' →
  mounted w = mounted w' → cleanup w = cleanup w' → heap w = heap w' →
  timers w = timers w' → core w = core w'.
Proof. unfold core. by intros -> -> -> -> -> -> ->. Qed.

Lemma passes_heap cb w w' : heap w' = heap w → passes cb w' = passes cb w.
Proof. intros Hh. destruct cb; [done|]. cbn. by rewrite Hh. Qed.

(** Running a callback twice is running it once, console aside. *)
Lemma run_callback_twice cb v w :
  core (exec (run_callback cb v) (exec (run_callback cb v) w))
    = core (exec (run_callback cb v) w).
Proof.
  destruct (run_callback_spec cb v w) as (Hd & Hl & Hp & Hm & Hcl & Hh & Ht).
  destruct (run_callback_spec cb v (exec (run_callback cb v) w))
    as (Hd' & Hl' & Hp' & Hm' & Hcl' & Hh' & Ht').
  rewrite (passes_heap cb w _ Hh), Hm in Hd', Hl'.
  apply core_eq; try done.
  - rewrite Hd', Hd. by destruct (mounted w && passes cb w).
  - rewrite Hl', Hl. by destruct (mounted w && passes cb w).
Qed.

(** A timer fires once. *)
Lemma fire_twice k w : fire k (fire k w) = fire k w.
Proof.
  pose proof (fire_spec k w) as S.
  destruct (timers w !! k) as [r|] eqn:Hk; [|by rewrite !S].
  destruct (settled r) eqn:Hs; [by rewrite !S|].
  destruct S as (_ & _ & _ & _ & _ & _ & Ht).
  pose proof (fire_spec k (fire k w)) as S'.
  by rewrite Ht, list_lookup_alter_eq, Hk in S'.
Qed.

(** Where loading is over there is something to show: kept by every
    event, from any world. *)
Lemma shown_step c e w :
  (loading w = false → is_Some (data w)) →
  loading (step c e w) = false → is_Some (data (step c e w)).
Proof.
  intros Hw. destruct e as [u|k|k|]; cbn [step].
  - unfold render. destruct (mounted w) eqn:Hm; [|done].
    case_bool_decide; [done|].
    destruct (start_spec c u (teardown w)) as (_ & -> & _ & _).
    destruct (teardown_spec w) as (_ & _ & _ & -> & _). by rewrite Hm.
  - pose proof (fire_spec k w) as S.
    destruct (timers w !! k) as [r|]; [|by rewrite S].
    destruct (settled r); [by rewrite S|].
    destruct S as (-> & -> & _).
    by destruct (mounted w && passes (callback r) w).
  - pose proof (reject_spec k w) as S.
    destruct (timers w !! k) as [r|]; [|by rewrite S].
    destruct (settled r); [by rewrite S|].
    by destruct S as (-> & -> & _).
  - destruct (mounted w) eqn:Hm; [|by unfold unmount; rewrite Hm].
    by destruct (unmount_spec w Hm) as (-> & -> & _).
Qed.

Lemma shown_run c es w :
  (loading w = false → is_Some (data w)) →
  loading (run c es w) = false → is_Some (data (run c es w)).
Proof.
  revert w. induction es as [|e es IH]; intros w Hw; [done|].
  rewrite run_cons. by apply IH, shown_step.
Qed.

(** The only step that ends the loading is a timer that fires, and it
    stores the value of its invocation in the same step. *)
Lemma loading_ends c e w :
  loading w = true → loading (step c e w) = false →
  ∃ k r, e = Timeout k ∧ timers w !! k = Some r ∧ settled r = false ∧
         data (step c e w) = Some (value (timer r)).
Proof.
  intros Hlo. destruct e as [u|k|k|]; cbn [step].
  - unfold render. destruct (mounted w) eqn:Hm; [|congruence].
    case_bool_decide; [congruence|].
    destruct (start_spec c u (teardown w)) as (_ & -> & _ & _).
    destruct (teardown_spec w) as (_ & _ & _ & -> & _). by rewrite Hm.
  - pose proof (fire_spec k w) as S.
    destruct (timers w !! k) as [r|] eqn:Hk; [|rewrite S; congruence].
    destruct (settled r) eqn:Hs; [rewrite S; congruence|].
    destruct S as (-> & -> & _).
    destruct (mounted w && passes (callback r) w); [|congruence].
    intros _. by exists k, r.
  - pose proof (reject_spec k w) as S.
    destruct (timers w !! k) as [r|]; [|rewrite S; congruence].
    destruct (settled r); [rewrite S; congruence|].
    destruct S as (_ & -> & _). congruence.
  - destruct (mounted w) eqn:Hm; [|unfold unmount; rewrite Hm; congruence].
    destruct (unmount_spec w Hm) as (_ & -> & _). congruence.
Qed.
End Callbacks.

(** C5.  The callback [WithCleanup] chains on a fetch reads its own
    [isMounted].  In any world where that flag is false, running the callback
    leaves [data], [loading] and everything else but the console as they
    were; in any run of [WithCleanup], where the flag is true the callback
    stores its argument in [data] and ends the loading.  A timer that fires
    in such a run does the one or the other according to the flag of its own
    invocation. *)
Theorem WithCleanup_then_guard {C : Type} `{!Sink C}
    (out : C) (u0 : Z) (es : list event) (w : World C)
    (userId : Z) (isMounted : nat) (userData : UserData) :
  w = run WithCleanup es (mount WithCleanup u0 out) →
  (∀ w' : World C, heap w' !! isMounted = Some false →
     display (exec (run_callback (WithCleanup_then userId isMounted) userData) w')
       = display w' ∧
     core (exec (run_callback (WithCleanup_then userId isMounted) userData) w')
       = core w') ∧
  (heap w !! isMounted = Some true →
     display (exec (run_callback (WithCleanup_then userId isMounted) userData) w)
       = (Some userData, false)) ∧
  (∀ k r, timers w !! k = Some r → settled r = false →
     (heap w !! k = Some false →
        display (step WithCleanup (Timeout k) w) = display w) ∧
     (heap w !! k = Some true →
        display (step WithCleanup (Timeout k) w) = (Some (value (timer r)), false))).
Proof.
  intros ->. set (w := run WithCleanup es (mount WithCleanup u0 out)).
  assert (G : guarded w) by apply guarded_reachable.
  split_and!.
  - intros w' Hoff.
    destruct (run_callback_spec (WithCleanup_then userId isMounted) userData w')
      as (Hd & Hl & Hp & Hm & Hcl & Hh & Ht).
    cbn [passes] in Hd, Hl. rewrite Hoff, andb_false_r in Hd, Hl.
    split; [unfold display; congruence|by apply core_eq].
  - intros Hon. destruct (g_flag w G _ Hon) as [Hm _].
    destruct (run_callback_spec (WithCleanup_then userId isMounted) userData w)
      as (Hd & Hl & _).
    cbn [passes] in Hd, Hl. rewrite Hon, Hm in Hd, Hl.
    unfold display. by rewrite Hd, Hl.
  - intros k r Hk Hs. cbn [step].
    destruct (g_request w G k r Hk) as (u & _ & Hcb). cbn in Hcb.
    pose proof (fire_spec k w) as S. rewrite Hk, Hs, Hcb in S.
    destruct S as (Hd & Hl & _). cbn [passes] in Hd, Hl. unfold display.
    split; intros Hf; rewrite Hf in Hd, Hl.
    + rewrite andb_false_r in Hd, Hl. congruence.
    + destruct (g_flag w G _ Hf) as [Hm _]. rewrite Hm in Hd, Hl.
      simpl in Hd, Hl. congruence.
Qed.

Lemma WithCleanup_then_guard_witness :
  display (exec (run_callback (WithCleanup_then 1 0%nat) (fetch_result 1))
             (run WithCleanup [Render 2] (mount WithCleanup 1 ([] : list string))))
    = display (run WithCleanup [Render 2] (mount WithCleanup 1 ([] : list string))).
Proof.
  assert (Hoff : heap (run WithCleanup [Render 2] (mount WithCleanup 1 ([] : list string)))
                   !! 0%nat = Some false) by (vm_compute; reflexivity).
  exact (proj1 (proj1 (WithCleanup_then_guard ([] : list string) 1 [Render 2] _
                         1 0%nat (fetch_result 1) eq_refl) _ Hoff)).
Defined.

(** C9.  Running the callback of either component a second time, with the
    same value, changes nothing the first run left, console aside: [data],
    [loading], the flags and the invocations are the same.  And a timer that
    has fired does nothing when fired again. *)
Theorem resolution_idempotent {C : Type} `{!Sink C}
    (cb : Callback) (userData : UserData) (c : Component) (k : nat) (w : World C) :
  display (exec (run_callback cb userData) (exec (run_callback cb userData) w))
    = display (exec (run_callback cb userData) w) ∧
  core (exec (run_callback cb userData) (exec (run_callback cb userData) w))
    = core (exec (run_callback cb userData) w) ∧
  step c (Timeout k) (step c (Timeout k) w) = step c (Timeout k) w.
Proof.
  pose proof (run_callback_twice cb userData w) as Hcore.
  split_and!; [|done|apply fire_twice].
  assert (Hd : data (exec (run_callback cb userData) (exec (run_callback cb userData) w))
               = data (exec (run_callback cb userData) w))
    by exact (f_equal data Hcore).
  assert (Hl : loading (exec (run_callback cb userData) (exec (run_callback cb userData) w))
               = loading (exec (run_callback cb userData) w))
    by exact (f_equal loading Hcore).
  unfold display. by rewrite Hd, Hl.
Qed.

(** C10.  Both components start from [data = null] and [loading = true],
    and are in that state once mounted; after any events, if [loading] is
    false then [data] is not null; and a step that takes [loading] from true
    to false is a timer firing, which in the same step sets [data] to the
    value of its invocation. *)
Theorem loading_false_has_data {C : Type} `{!Sink C}
    (c : Component) (out : C) (u0 : Z) (es : list event) (w : World C) :
  w = run c es (mount c u0 out) →
  display (initial u0 out) = (None, true) ∧
  display (mount c u0 out) = (None, true) ∧
  (loading w = false → ∃ userData, data w = Some userData) ∧
  (∀ (w' : World C) e,
     loading w' = true → loading (step c e w') = false →
     ∃ k r, e = Timeout k ∧ timers w' !! k = Some r ∧ settled r = false ∧
            data (step c e w') = Some (value (timer r))).
Proof.
  intros ->. split_and!.
  - done.
  - by destruct c.
  - apply shown_run. by destruct c.
  - intros w' e. apply loading_ends.
Qed.

Lemma loading_false_has_data_witness :
  ∃ userData,
    data (run WithoutCleanup [Render 2; Timeout 0%nat]
            (mount WithoutCleanup 1 ([] : list string))) = Some userData.
Proof.
  assert (Hlo : loading (run WithoutCleanup [Render 2; Timeout 0%nat]
                           (mount WithoutCleanup 1 ([] : list string))) = false)
    by (vm_compute; reflexivity).
  exact (proj1 (proj2 (proj2 (loading_false_has_data WithoutCleanup ([] : list string) 1
                                [Render 2; Timeout 0%nat] _ eq_refl))) Hlo).
Defined.

(** ** The console *)

Section Console.
Context {C : Type} `{!Sink C}.
Implicit Types (w : World C) (u userId : Z) (k l : nat) (c : Component)
  (cb : Callback) (e : event) (es : list event) (v : UserData).

Lemma core_unit (w : World unit) : core w = w.
Proof. by destruct w as [? ? ? ? ? ? ? []]. Qed.

(** A world without console is known by its seven other fields. *)
Lemma core_is w (w' : World unit) :
  data w = data w' → loading w = loading w' → props w = props w' →
  mounted w = mounted w' → cleanup w = cleanup w' → heap w = heap w' →
  timers w = timers w' → core w = w'.
Proof. intros. rewrite <- (core_unit w'). by apply core_eq. Qed.

Lemma core_start c u w : core (start c u w) = start c u (core w).
Proof.
  destruct (start_spec c u w) as (? & ? & ? & ? & ? & ? & ?).
  destruct (start_spec c u (core w)) as (? & ? & ? & ? & ? & ? & ?).
  cbn [core data loading props mounted cleanup heap timers] in *.
  apply core_is; congruence.
Qed.

Lemma core_teardown w : core (teardown w) = teardown (core w).
Proof.
  destruct (teardown_spec w) as (? & ? & ? & ? & ? & ? & ?).
  destruct (teardown_spec (core w)) as (? & ? & ? & ? & ? & ? & ?).
  cbn [core data loading props mounted cleanup heap timers] in *.
  apply core_is; congruence.
Qed.

Lemma passes_core cb w : passes cb (core w) = passes cb w.
Proof. by destruct cb. Qed.

Lemma core_fire k w : core (fire k w) = fire k (core w).
Proof.
  pose proof (fire_spec k w) as S. pose proof (fire_spec k (core w)) as S'.
  change (timers (core w)) with (timers w) in S'.
  destruct (timers w !! k) as [r|]; [|by rewrite S, S'].
  destruct (settled r); [by rewrite S, S'|].
  destruct S as (? & ? & ? & ? & ? & ? & ?).
  destruct S' as (Hd' & Hl' & ? & ? & ? & ? & ?).
  rewrite passes_core in Hd', Hl'.
  cbn [core data loading props mounted cleanup heap timers] in *.
  apply core_is; congruence.
Qed.

Lemma core_reject k w : core (reject k w) = reject k (core w).
Proof.
  pose proof (reject_spec k w) as S. pose proof (reject_spec k (core w)) as S'.
  change (timers (core w)) with (timers w) in S'.
  destruct (timers w !! k) as [r|]; [|by rewrite S, S'].
  destruct (settled r); [by rewrite S, S'|].
  destruct S as (? & ? & ? & ? & ? & ? & ?).
  destruct S' as (? & ? & ? & ? & ? & ? & ?).
  cbn [core data loading props mounted cleanup heap timers] in *.
  apply core_is; congruence.
Qed.

Lemma core_unmount w : core (unmount w) = unmount (core w).
Proof.
  destruct (mounted w) eqn:Hm.
  - destruct (unmount_spec w Hm) as (? & ? & ? & ? & ? & ? & ?).
    destruct (unmount_spec (core w) Hm) as (? & ? & ? & ? & ? & ? & ?).
    cbn [core data loading props mounted cleanup heap timers] in *.
  apply core_is; congruence.
  - unfold unmount. cbn [core mounted]. by rewrite Hm.
Qed.

(** Every step commutes with forgetting the console. *)
Lemma core_step c e w : core (step c e w) = step c e (core w).
Proof.
  destruct e as [u|k|k|]; cbn [step].
  - unfold render. cbn [core mounted props].
    destruct (mounted w); [|done]. case_bool_decide; [done|].
    by rewrite core_start, core_teardown.
  - apply core_fire.
  - apply core_reject.
  - apply core_unmount.
Qed.

Lemma core_run c es w : core (run c es w) = run c es (core w).
Proof.
  revert w. induction es as [|e es IH]; intros w; [done|].
  by rewrite !run_cons, IH, core_step.
Qed.

Lemma core_mount c u (out : C) : core (mount c u out) = mount c u tt.
Proof. unfold mount. by rewrite core_start. Qed.
End Console.

(** C8.  Whatever the console is and holds, a run of either component is,
    console aside, the run of the same events with no console at all: same
    [data] and [loading], same flags, same invocations.  The timer
    [fetchUserData] returns does not depend on the console either. *)
Theorem console_is_observational {C : Type} `{!Sink C}
    (c : Component) (u0 : Z) (out : C) (es : list event) :
  core (run c es (mount c u0 out)) = run c es (mount c u0 tt) ∧
  display (run c es (mount c u0 out)) = display (run c es (mount c u0 tt)) ∧
  (∀ e (w : World C), core (step c e w) = step c e (core w)) ∧
  (∀ userId msg (w : World C),
     fst (fetchUserData userId msg w) = fst (fetchUserData userId msg (core w))).
Proof.
  assert (Hcore : core (run c es (mount c u0 out)) = run c es (mount c u0 tt)).
  { by rewrite core_run, core_mount. }
  split_and!; [done| |apply core_step|done].
  unfold display.
  by rewrite <- (f_equal data Hcore : data (run c es (mount c u0 out)) = _),
             <- (f_equal loading Hcore : loading (run c es (mount c u0 out)) = _).
Qed.

(** ** A promise that rejects *)

Section Rejection.
Context {C : Type} `{!Sink C}.
Implicit Types (w : World C) (u userId : Z) (k l : nat) (c : Component)
  (cb : Callback) (e : event) (es : list event) (v : UserData).

(** A rejection changes the settled mark and nothing else. *)
Lemma reject_display c k w :
  display (step c (Fail k) w) = display w.
Proof.
  cbn [step]. pose proof (reject_spec k w) as S.
  destruct (timers w !! k) as [r|]; [|by rewrite S].
  destruct (settled r); [by rewrite S|].
  destruct S as (Hd & Hl & _). unfold display. by rewrite Hd, Hl.
Qed.

(** A callback of [WithCleanup] whose flag is off changes nothing on
    display when its timer fires. *)
Lemma guarded_fire_stale k w :
  guarded w → heap w !! k = Some false →
  display (step WithCleanup (Timeout k) w) = display w.
Proof.
  intros G Hoff. cbn [step]. pose proof (fire_spec k w) as S.
  destruct (timers w !! k) as [r|] eqn:Hk; [|by rewrite S].
  destruct (settled r); [by rewrite S|].
  destruct (g_request w G k r Hk) as (u & _ & Hcb). cbn in Hcb.
  destruct S as (Hd & Hl & _). rewrite Hcb in Hd, Hl. cbn [passes] in Hd, Hl.
  rewrite Hoff, andb_false_r in Hd, Hl. unfold display. by rewrite Hd, Hl.
Qed.

(** While the latest promise of a mounted [WithCleanup] is settled, no
    quiet event changes what is on display. *)
Lemma guarded_settled_step e w :
  guarded w → quiet e = true →
  (mounted w = true → settled <$> timers w !! latest w = Some true) →
  display (step WithCleanup e w) = display w ∧
  (mounted (step WithCleanup e w) = true →
   settled <$> timers (step WithCleanup e w) !! latest (step WithCleanup e w)
     = Some true).
Proof.
  intros G He Hset.
  assert (Hlast : latest (step WithCleanup e w) = latest w)
    by (apply (latest_quiet_run WithCleanup [e]); cbn; by rewrite He).
  destruct (quiet_step WithCleanup e w He) as (_ & Hm & _).
  rewrite Hlast, Hm.
  destruct e as [u|k|k|]; try done; cbn [step] in *.
  - pose proof (fire_spec k w) as S.
    destruct (timers w !! k) as [r|] eqn:Hk; [|by rewrite S].
    destruct (settled r) eqn:Hs; [by rewrite S|].
    destruct S as (Hd & Hl & _ & _ & _ & _ & Ht).
    destruct (mounted w && passes (callback r) w) eqn:Hpass.
    { apply andb_prop in Hpass as [Hm' Hpass].
      destruct (guarded_passes w k r G Hk Hpass) as (_ & -> & _).
      specialize (Hset Hm'). rewrite Hk in Hset. cbn in Hset. congruence. }
    split; [unfold display; by rewrite Hd, Hl|].
    intros Hm'. rewrite Ht, list_lookup_alter. case_decide; [|by apply Hset].
    subst k. by rewrite Hk.
  - pose proof (reject_spec k w) as S.
    destruct (timers w !! k) as [r|] eqn:Hk; [|by rewrite S].
    destruct (settled r) eqn:Hs; [by rewrite S|].
    destruct S as (Hd & Hl & _ & _ & _ & _ & Ht).
    split; [unfold display; by rewrite Hd, Hl|].
    intros Hm'. rewrite Ht, list_lookup_alter. case_decide; [|by apply Hset].
    subst k. by rewrite Hk.
Qed.

Lemma guarded_settled_run es w :
  guarded w → forallb quiet es = true →
  (mounted w = true → settled <$> timers w !! latest w = Some true) →
  display (run WithCleanup es w) = display w.
Proof.
  revert w. induction es as [|e es IH]; intros w G; [done|].
  cbn [forallb]. intros [He Hes]%andb_prop Hset. rewrite run_cons.
  destruct (guarded_settled_step e w G He Hset) as [Hdisp Hset'].
  rewrite IH; [done|by apply guarded_step|done..].
Qed.

(** Rejecting the latest promise settles it. *)
Lemma guarded_reject_latest w :
  guarded w → mounted w = true →
  settled <$> timers (reject (latest w) w) !! latest (reject (latest w) w) = Some true.
Proof.
  intros G Hm. destruct (g_current w G Hm) as (_ & _ & r & Hr & _).
  pose proof (reject_spec (latest w) w) as S. rewrite Hr in S.
  destruct (settled r) eqn:Hs; [rewrite S, Hr; cbn; by rewrite Hs|].
  destruct S as (_ & _ & _ & _ & _ & _ & Ht).
  assert (Hlast : latest (reject (latest w) w) = latest w)
    by apply (latest_quiet_run WithCleanup [Fail (latest w)] w eq_refl).
  by rewrite Hlast, Ht, list_lookup_alter_eq, Hr.
Qed.
End Rejection.

(** C6, as the code has it.  [then] is given no rejection callback and the
    component has no error state: a rejected promise, of the live invocation
    or of a superseded one, changes neither [data] nor [loading], nor any
    flag.  For a superseded invocation that is what a late success does too.
    For the live one the component stays loading, whatever timers fire or
    fail afterwards, until the identifier changes. *)
Theorem WithCleanup_ignores_rejection {C : Type} `{!Sink C}
    (out : C) (u0 : Z) (es : list event) (w : World C) (k : nat) :
  w = run WithCleanup es (mount WithCleanup u0 out) →
  display (step WithCleanup (Fail k) w) = display w ∧
  heap (step WithCleanup (Fail k) w) = heap w ∧
  (heap w !! k = Some false →
     display (step WithCleanup (Fail k) w) = display (step WithCleanup (Timeout k) w)) ∧
  (mounted w = true → settled <$> timers w !! latest w = Some false →
     ∀ n, forallb quiet n = true →
       loading (run WithCleanup (Fail (latest w) :: n) w) = true ∧
       data (run WithCleanup (Fail (latest w) :: n) w) = data w).
Proof.
  intros ->. set (w := run WithCleanup es (mount WithCleanup u0 out)).
  assert (G : guarded w) by apply guarded_reachable.
  split_and!.
  - apply reject_display.
  - by destruct (quiet_step WithCleanup (Fail k) w eq_refl) as (_ & _ & _ & -> & _).
  - intros Hoff. by rewrite reject_display, guarded_fire_stale.
  - intros Hm Hpend n Hn. rewrite run_cons.
    assert (Hlo : loading w = true).
    { destruct (loading w) eqn:Hlo; [done|].
      destruct (g_shown w G Hlo) as [_ Hset]. congruence. }
    pose proof (guarded_settled_run n (step WithCleanup (Fail (latest w)) w)
                  (guarded_step _ _ G) Hn) as Hkeep.
    assert (Hset : mounted (step WithCleanup (Fail (latest w)) w) = true →
                   settled <$> timers (step WithCleanup (Fail (latest w)) w)
                     !! latest (step WithCleanup (Fail (latest w)) w) = Some true).
    { intros _. cbn [step]. by apply guarded_reject_latest. }
    specialize (Hkeep Hset). rewrite reject_display in Hkeep.
    unfold display in Hkeep. injection Hkeep as Hd Hl.
    split; [etransitivity; [exact Hl|exact Hlo]|exact Hd].
Qed.

Lemma WithCleanup_ignores_rejection_witness :
  loading (run WithCleanup [Fail 1%nat; Timeout 0%nat; Timeout 1%nat]
             (run WithCleanup [Render 2] (mount WithCleanup 1 ([] : list string))))
    = true.
Proof.
  pose proof (WithCleanup_ignores_rejection ([] : list string) 1 [Render 2] _ 0%nat eq_refl)
    as (_ & _ & _ & H).
  assert (Hm : mounted (run WithCleanup [Render 2] (mount WithCleanup 1 ([] : list string)))
               = true) by (vm_compute; reflexivity).
  assert (Hpend : settled <$> timers (run WithCleanup [Render 2]
                                        (mount WithCleanup 1 ([] : list string)))
                    !! latest (run WithCleanup [Render 2]
                                 (mount WithCleanup 1 ([] : list string))) = Some false)
    by (vm_compute; reflexivity).
  pose proof (proj1 (H Hm Hpend [Timeout 0%nat; Timeout 1%nat] eq_refl)) as Hlo.
  vm_compute in Hlo. vm_compute. exact Hlo.
Defined.

(** C6, as the claim has it, fails: the promise of the live invocation is
    rejected, and the component is still loading, with nothing to show; a
    timer firing afterwards changes nothing. *)
Lemma WithCleanup_live_failure_keeps_loading :
  loading (run WithCleanup [Fail 0%nat] (mount WithCleanup 1 ([] : list string)))
    ≠ false ∧
  display (run WithCleanup [Fail 0%nat; Timeout 0%nat]
             (mount WithCleanup 1 ([] : list string))) = (None, true).
Proof. vm_compute. by split. Qed.

(** ** What the panels show *)


(** X2.  Whatever happened to an instance of either component, its panel
    shows "Loading..." or three fields that are all there: the optional
    chaining on [data] never gives [undefined]. *)
Theorem panel_fields_defined {C : Type} `{!Sink C}
    (c : Component) (out : C) (u0 : Z) (es : list event) :
  panel (run c es (mount c u0 out)) = Loading ∨
  ∃ userData,
    data (run c es (mount c u0 out)) = Some userData ∧
    panel (run c es (mount c u0 out))
      = Fields (Some (id userData)) (Some (name userData)) (Some (email userData)).
Proof.
  set (w := run c es (mount c u0 out)).
  unfold panel. destruct (loading w) eqn:Hlo; [by left|right].
  destruct (shown_run c es (mount c u0 out)) as [userData Hd]; [by destruct c|done|].
  fold w in Hd. exists userData. by rewrite Hd.
Qed.

(** ** Runs without rejection or unmount *)

Section Calm.
Context {C : Type} `{!Sink C}.
Implicit Types (w : World C) (u : Z) (k l : nat) (c : Component)
  (cb : Callback) (e : event) (es : list event) (v : UserData).

Lemma responsive_mount u (out : C) : responsive (mount WithCleanup u out).
Proof.
  destruct (start_spec WithCleanup u (initial u out)) as (_ & Hl & _ & Hm & _ & _ & Ht).
  split; [done|]. unfold latest, mount. by rewrite Ht.
Qed.

Lemma responsive_step e w :
  guarded w → calm e = true → responsive w → responsive (step WithCleanup e w).
Proof.
  intros G He [Hm Hres]. destruct e as [u|k|k|]; try done; cbn [step].
  - unfold render. rewrite Hm. case_bool_decide; [done|].
    destruct (guarded_render_new u w G Hm) as (Hm' & _ & _ & _ & _ & Hpend); [done|].
    unfold render in Hm', Hpend. rewrite Hm, bool_decide_eq_false_2 in Hm', Hpend by done.
    split; [done|]. rewrite Hpend. congruence.
  - pose proof (fire_spec k w) as S.
    destruct (timers w !! k) as [r|] eqn:Hk; [|by rewrite S].
    destruct (settled r) eqn:Hs; [by rewrite S|].
    destruct S as (_ & Hl & _ & Hm' & _ & _ & Ht).
    assert (Hlast : latest (fire k w) = latest w) by (unfold latest; by rewrite Ht, length_alter).
    split; [congruence|]. rewrite Hlast, Ht, Hl, list_lookup_alter.
    case_decide as Hkl;
      [|intros Hset; rewrite (Hres Hset); by destruct (mounted w && passes (callback r) w)].
    subst k. intros _. rewrite Hm. cbn [andb].
    destruct (g_current w G Hm) as (Hf & _ & r' & Hr' & _ & Hcb). cbn in Hcb.
    assert (r' = r) as -> by congruence. by rewrite Hcb; cbn [passes]; rewrite Hf.
Qed.

Lemma responsive_run es w :
  guarded w → forallb calm es = true → responsive w →
  responsive (run WithCleanup es w).
Proof.
  revert w. induction es as [|e es IH]; intros w G; [done|].
  cbn [forallb]. intros [He Hes]%andb_prop R. rewrite run_cons.
  apply IH; [by apply guarded_step|done|by apply responsive_step].
Qed.
End Calm.

(** X3.  In a run of [WithCleanup] with renders and timers only, the
    component is loading exactly while the response for the identifier it
    was last rendered with is outstanding. *)
Theorem WithCleanup_loading_iff_outstanding {C : Type} `{!Sink C}
    (out : C) (u0 : Z) (es : list event) :
  forallb calm es = true →
  loading (run WithCleanup es (mount WithCleanup u0 out)) = true ↔
  settled <$> timers (run WithCleanup es (mount WithCleanup u0 out))
    !! latest (run WithCleanup es (mount WithCleanup u0 out)) = Some false.
Proof.
  intros Hes. set (w := run WithCleanup es (mount WithCleanup u0 out)).
  assert (G : guarded w) by apply guarded_reachable.
  destruct (responsive_run es _ (guarded_mount u0 out) Hes (responsive_mount u0 out))
    as [Hm Hres]. fold w in Hm, Hres.
  destruct (g_current w G Hm) as (_ & _ & r & Hr & _).
  rewrite Hr in Hres |- *. cbn in Hres |- *.
  split.
  - intros Hlo. destruct (settled r); [|done]. rewrite Hres in Hlo; done.
  - intros [= Hs]. destruct (loading w) eqn:Hlo; [done|].
    destruct (g_shown w G Hlo) as [_ Hset]. rewrite Hr in Hset. cbn in Hset. congruence.
Qed.

Lemma WithCleanup_loading_iff_outstanding_witness :
  loading (run WithCleanup [Render 2; Timeout 0%nat]
             (mount WithCleanup 1 ([] : list string))) = true.
Proof.
  assert (Hpend : settled <$> timers (run WithCleanup [Render 2; Timeout 0%nat]
                                        (mount WithCleanup 1 ([] : list string)))
                    !! latest (run WithCleanup [Render 2; Timeout 0%nat]
                                 (mount WithCleanup 1 ([] : list string))) = Some false)
    by (vm_compute; reflexivity).
  exact (proj2 (WithCleanup_loading_iff_outstanding ([] : list string) 1
                  [Render 2; Timeout 0%nat] eq_refl) Hpend).
Defined.

(** ** What the console records *)

(** X4.  When the identifier of a mounted [WithCleanup] changes from [A] to
    [B], the console receives four lines, in this order: the cleanup for
    [A], then the effect, [fetchUser] and [fetchUserData] for [B]. *)
Theorem WithCleanup_render_trace
    (out : list string) (u0 : Z) (es : list event) (w : World (list string)) (B : Z) :
  w = run WithCleanup es (mount WithCleanup u0 out) →
  mounted w = true → B ≠ props w →
  console (step WithCleanup (Render B) w)
    = console w ++
      [ green "[WITH CLEANUP]" +:+ " Cleanup for userId=" +:+ pretty (props w);
        green "[WITH CLEANUP]" +:+ " Effect running for userId=" +:+ pretty B;
        green "[WITH CLEANUP]" +:+ " fetchUser called for userId=" +:+ pretty B;
        green "[WITH CLEANUP]" +:+ "Fetching user " +:+ pretty B +:+ "..." ].
Proof.
  intros -> Hm HB. set (w := run WithCleanup es (mount WithCleanup u0 out)) in *.
  assert (G : guarded w) by apply guarded_reachable.
  rewrite render_new by done.
  destruct (g_current w G Hm) as (_ & Hcl & _). unfold latest in Hcl.
  destruct w as [d lo p m cl h ts o].
  cbn [cleanup timers props mounted console] in Hm, Hcl |- *. subst m cl.
  prog. unfold console_log, recording_sink. by rewrite <- !app_assoc.
Qed.

Lemma WithCleanup_render_trace_witness :
  console (step WithCleanup (Render 2) (mount WithCleanup 1 ([] : list string)))
    = console (mount WithCleanup 1 ([] : list string)) ++
      [ green "[WITH CLEANUP]" +:+ " Cleanup for userId=" +:+ pretty 1;
        green "[WITH CLEANUP]" +:+ " Effect running for userId=" +:+ pretty 2;
        green "[WITH CLEANUP]" +:+ " fetchUser called for userId=" +:+ pretty 2;
        green "[WITH CLEANUP]" +:+ "Fetching user " +:+ pretty 2 +:+ "..." ].
Proof.
  pose proof (WithCleanup_render_trace [] 1 [] (mount WithCleanup 1 []) 2) as H.
  vm_compute in H.
  assert (Hne : 2 = 1 → False) by lia.
  specialize (H eq_refl eq_refl Hne). vm_compute. exact H.
Defined.

(** X5.  When the timer of a pending invocation of [WithCleanup] fires, the
    console receives two lines, both naming the identifier the invocation
    was started for: the response, then either the update or the refusal,
    with the value of the invocation's own flag. *)
Theorem WithCleanup_timer_trace
    (out : list string) (u0 : Z) (es : list event) (w : World (list string))
    (k : nat) (r : Request) (b : bool) :
  w = run WithCleanup es (mount WithCleanup u0 out) →
  timers w !! k = Some r → settled r = false → heap w !! k = Some b →
  console (step WithCleanup (Timeout k) w)
    = console w ++
      [ green "[WITH CLEANUP]" +:+ "Received data for user " +:+ pretty (id (value (timer r)));
        green "[WITH CLEANUP]"
          +:+ (if b then " Setting state for userId=" else " Ignoring response for userId=")
          +:+ pretty (id (value (timer r)))
          +:+ " (isMounted=" +:+ show_bool b +:+ ")" ].
Proof.
  intros -> Hk Hs Hb. set (w := run WithCleanup es (mount WithCleanup u0 out)) in *.
  assert (G : guarded w) by apply guarded_reachable.
  destruct (g_request w G k r Hk) as (u & Ht & Hcb).
  cbn [step]. unfold fire. rewrite Hk, Hs.
  destruct r as [t cb s]. cbn in Ht, Hcb, Hs |- *. subst t cb s.
  destruct w as [d lo p m cl h ts o]. cbn in Hb |- *.
  destruct b, m; prog; rewrite Hb; cbv [Datatypes.id]; prog;
    cbn [value id fetch_result received show_bool];
    unfold console_log, recording_sink; by rewrite <- !app_assoc.
Qed.

Lemma WithCleanup_timer_trace_witness :
  console (step WithCleanup (Timeout 0%nat)
             (run WithCleanup [Render 2] (mount WithCleanup 1 ([] : list string))))
    = console (run WithCleanup [Render 2] (mount WithCleanup 1 ([] : list string))) ++
      [ green "[WITH CLEANUP]" +:+ "Received data for user " +:+ pretty 1;
        green "[WITH CLEANUP]" +:+ " Ignoring response for userId=" +:+ pretty 1
          +:+ " (isMounted=" +:+ "false" +:+ ")" ].
Proof.
  pose proof (WithCleanup_timer_trace [] 1 [Render 2] _ 0%nat
                (request_of WithCleanup 1 0%nat) false eq_refl) as H.
  vm_compute in H. specialize (H eq_refl eq_refl eq_refl). vm_compute. exact H.
Defined.

(** X6.  [WithoutCleanup] has no cleanup to run: when its identifier changes
    the console receives the two lines of the new effect only, and when the
    timer of any pending invocation fires, the response and the update,
    both naming the identifier of that invocation. *)
Theorem WithoutCleanup_trace
    (out : list string) (u0 : Z) (es : list event) (w : World (list string)) :
  w = run WithoutCleanup es (mount WithoutCleanup u0 out) →
  (∀ B, mounted w = true → B ≠ props w →
     console (step WithoutCleanup (Render B) w)
       = console w ++
         [ red "[WITHOUT CLEANUP]" +:+ " Effect running for userId=" +:+ pretty B;
           red "[WITHOUT CLEANUP]" +:+ "Fetching user " +:+ pretty B +:+ "..." ]) ∧
  (∀ k r, timers w !! k = Some r → settled r = false →
     console (step WithoutCleanup (Timeout k) w)
       = console w ++
         [ red "[WITHOUT CLEANUP]" +:+ "Received data for user "
             +:+ pretty (id (value (timer r)));
           red "[WITHOUT CLEANUP]" +:+ " Setting state for userId="
             +:+ pretty (id (value (timer r))) ]).
Proof.
  intros ->. set (w := run WithoutCleanup es (mount WithoutCleanup u0 out)) in *.
  assert (U : unguarded w) by apply unguarded_reachable.
  split.
  - intros B Hm HB. rewrite render_new by done.
    pose proof (u_cleanup w U) as Hcl.
    destruct w as [d lo p m cl h ts o].
    cbn [cleanup timers props mounted console] in Hm, Hcl |- *. subst m cl.
    prog. unfold console_log, recording_sink. by rewrite <- !app_assoc.
  - intros k r Hk Hs. destruct (u_request w U k r Hk) as (u & Ht & Hcb).
    cbn [step]. unfold fire. rewrite Hk, Hs.
    destruct r as [t cb s]. cbn in Ht, Hcb, Hs |- *. subst t cb s.
    destruct w as [d lo p m cl h ts o]. cbn.
    destruct m; prog; cbn [value id fetch_result received];
      unfold console_log, recording_sink; by rewrite <- !app_assoc.
Qed.

Lemma WithoutCleanup_trace_witness :
  console (step WithoutCleanup (Render 2) (mount WithoutCleanup 1 ([] : list string)))
    = console (mount WithoutCleanup 1 ([] : list string)) ++
      [ red "[WITHOUT CLEANUP]" +:+ " Effect running for userId=" +:+ pretty 2;
        red "[WITHOUT CLEANUP]" +:+ "Fetching user " +:+ pretty 2 +:+ "..." ].
Proof.
  pose proof (proj1 (WithoutCleanup_trace [] 1 [] (mount WithoutCleanup 1 []) eq_refl) 2) as H.
  vm_compute in H.
  assert (Hne : 2 = 1 → False) by lia.
  specialize (H eq_refl Hne). vm_compute. exact H.
Defined.

(** ** After the unmount *)

Section Unmounted.
Context {C : Type} `{!Sink C}.
Implicit Types (w : World C) (u : Z) (k l : nat) (c : Component)
  (cb : Callback) (e : event) (es : list event) (v : UserData).

(** Nothing happens to an unmounted instance but the settling of its
    promises. *)
Lemma unmounted_step c e w :
  mounted w = false →
  mounted (step c e w) = false ∧ display (step c e w) = display w ∧
  heap (step c e w) = heap w ∧ length (timers (step c e w)) = length (timers w).
Proof.
  intros Hm. destruct e as [u|k|k|].
  - cbn [step]. unfold render. by rewrite Hm.
  - destruct (quiet_step c (Timeout k) w eq_refl) as (_ & -> & _ & -> & ->).
    split_and!; try done. cbn [step]. pose proof (fire_spec k w) as S.
    destruct (timers w !! k) as [r|]; [|by rewrite S].
    destruct (settled r); [by rewrite S|].
    destruct S as (Hd & Hl & _). rewrite Hm in Hd, Hl. unfold display. by rewrite Hd, Hl.
  - destruct (quiet_step c (Fail k) w eq_refl) as (_ & -> & _ & -> & ->).
    split_and!; try done. apply reject_display.
  - cbn [step]. unfold unmount. by rewrite Hm.
Qed.

Lemma unmounted_run c es w :
  mounted w = false →
  mounted (run c es w) = false ∧ display (run c es w) = display w ∧
  heap (run c es w) = heap w ∧ length (timers (run c es w)) = length (timers w).
Proof.
  revert w. induction es as [|e es IH]; intros w Hm; [done|].
  rewrite run_cons. destruct (unmounted_step c e w Hm) as (Hm' & <- & <- & <-).
  by apply IH.
Qed.

Lemma unmount_unmounted w : mounted (unmount w) = false.
Proof.
  destruct (mounted w) eqn:Hm; [|by unfold unmount; rewrite Hm].
  by destruct (unmount_spec w Hm) as (_ & _ & _ & -> & _).
Qed.

Lemma unmount_display w : display (unmount w) = display w.
Proof.
  destruct (mounted w) eqn:Hm; [|by unfold unmount; rewrite Hm].
  destruct (unmount_spec w Hm) as (Hd & Hl & _). unfold display. by rewrite Hd, Hl.
Qed.
End Unmounted.

(** X7.  Once a [WithCleanup] instance is unmounted, whatever happens next:
    every [isMounted] is false, so the callback of every invocation refuses
    its response; what the instance held on display stays as it was; and no
    fetch is started. *)
Theorem WithCleanup_unmount_is_final {C : Type} `{!Sink C}
    (out : C) (u0 : Z) (es es' : list event) :
  (∀ l b, heap (run WithCleanup (es ++ Unmount :: es') (mount WithCleanup u0 out)) !! l
            = Some b → b = false) ∧
  (∀ k r, timers (run WithCleanup (es ++ Unmount :: es') (mount WithCleanup u0 out)) !! k
            = Some r →
          passes (callback r)
            (run WithCleanup (es ++ Unmount :: es') (mount WithCleanup u0 out)) = false) ∧
  display (run WithCleanup (es ++ Unmount :: es') (mount WithCleanup u0 out))
    = display (run WithCleanup es (mount WithCleanup u0 out)) ∧
  length (timers (run WithCleanup (es ++ Unmount :: es') (mount WithCleanup u0 out)))
    = length (timers (run WithCleanup es (mount WithCleanup u0 out))).
Proof.
  assert (G : guarded (run WithCleanup (es ++ Unmount :: es') (mount WithCleanup u0 out)))
    by apply guarded_reachable.
  revert G. rewrite run_app, run_cons. cbn [step].
  set (w := run WithCleanup es (mount WithCleanup u0 out)). intros G.
  destruct (unmounted_run WithCleanup es' (unmount w) (unmount_unmounted w))
    as (Hm & Hd & Hh & Ht).
  assert (Hoff : ∀ l b, heap (run WithCleanup es' (unmount w)) !! l = Some b → b = false).
  { intros l [] Hl; [|done]. destruct (g_flag _ G l Hl). congruence. }
  split_and!.
  - done.
  - intros k r Hk. destruct (g_request _ G k r Hk) as (u & _ & Hcb). cbn in Hcb.
    rewrite Hcb. cbn [passes].
    destruct (heap (run WithCleanup es' (unmount w)) !! k) as [b|] eqn:Hb; [|done].
    by rewrite (Hoff k b Hb).
  - by rewrite Hd, unmount_display.
  - rewrite Ht. destruct (mounted w) eqn:Hmw; [|by unfold unmount; rewrite Hmw].
    by destruct (unmount_spec w Hmw) as (_ & _ & _ & _ & _ & _ & ->).
Qed.

(** ** Without overlap *)

Section Twins.
Context {C : Type} `{!Sink C}.
Implicit Types (w : World C) (u : Z) (k l : nat) (c : Component)
  (cb : Callback) (e : event) (es : list event) (v : UserData).

Lemma settled_alter k (ts : list Request) :
  settled <$> alter mark_settled k ts = alter (λ _, true) k (settled <$> ts).
Proof. apply list_fmap_alter. by apply Forall_forall. Qed.

Lemma value_alter k (ts : list Request) :
  (λ r, value (timer r)) <$> alter mark_settled k ts = (λ r, value (timer r)) <$> ts.
Proof.
  rewrite (list_fmap_alter _ mark_settled (λ x, x)) by (by apply Forall_forall).
  by apply list_alter_id.
Qed.

Lemma twin_lookup w1 w2 k :
  twin w1 w2 →
  match timers w1 !! k, timers w2 !! k with
  | Some r1, Some r2 => settled r1 = settled r2 ∧ value (timer r1) = value (timer r2)
  | None, None => True
  | _, _ => False
  end.
Proof.
  intros (_ & _ & _ & _ & Hs & Hv).
  apply (f_equal (λ l : list bool, l !! k)) in Hs.
  apply (f_equal (λ l : list UserData, l !! k)) in Hv.
  cbn beta in Hs, Hv. rewrite !list_lookup_fmap in Hs. rewrite !list_lookup_fmap in Hv.
  destruct (timers w1 !! k), (timers w2 !! k); cbn in *; try done.
  split; congruence.
Qed.

Lemma idle_settled w k r : idle w = true → timers w !! k = Some r → settled r = true.
Proof.
  unfold idle. rewrite forallb_forall. intros Hall Hk.
  apply Hall, list_elem_of_In, list_elem_of_lookup. eauto.
Qed.

Lemma only_latest_settle w w' k :
  only_latest w → timers w' = alter mark_settled k (timers w) → only_latest w'.
Proof.
  intros Ho Ht j r. unfold latest. rewrite Ht, length_alter, list_lookup_alter.
  case_decide as Hj.
  - subst j. destruct (timers w !! k); [|done]. by intros [= <-].
  - apply Ho.
Qed.

(** One event keeps the two components twins, as long as a render that
    changes the identifier finds no invocation outstanding. *)
Lemma twin_step e w1 w2 :
  unguarded w1 → guarded w2 → twin w1 w2 → only_latest w2 →
  match e with Render u => bool_decide (u = props w2) || idle w2 | _ => true end = true →
  twin (step WithoutCleanup e w1) (step WithCleanup e w2) ∧
  only_latest (step WithCleanup e w2).
Proof.
  intros U G T Ho He. pose proof T as (Hd & Hl & Hp & Hm & Hs & Hv).
  destruct e as [u|k|k|]; cbn [step].
  - unfold render. rewrite Hm, Hp. destruct (mounted w2) eqn:Hm2; [|done].
    case_bool_decide as Hu; [done|]. cbn [orb] in He.
    destruct (teardown_spec w1) as (Hd1 & Hl1 & _ & Hm1 & _ & _ & Ht1).
    destruct (teardown_spec w2) as (Hd2 & Hl2 & _ & Hm2' & _ & _ & Ht2).
    destruct (start_spec WithoutCleanup u (teardown w1))
      as (Hd1' & Hl1' & Hp1' & Hm1' & _ & _ & Ht1').
    destruct (start_spec WithCleanup u (teardown w2))
      as (Hd2' & Hl2' & Hp2' & Hm2'' & _ & _ & Ht2').
    split.
    + unfold twin. rewrite Ht1', Ht2', Ht1, Ht2, !fmap_app, Hs, Hv.
      rewrite Hl1', Hl2', Hm1, Hm2', Hm, Hm2.
      split_and!; first [congruence|done].
    + intros k r. unfold latest. rewrite Ht2', Ht2, length_app. cbn [length].
      intros [[_ Hk]|[-> _]]%lookup_snoc_Some Hpend; [|lia].
      rewrite (idle_settled w2 k r He Hk) in Hpend. done.
  - pose proof (twin_lookup w1 w2 k T) as Hk.
    pose proof (fire_spec k w1) as S1. pose proof (fire_spec k w2) as S2.
    destruct (timers w1 !! k) as [r1|] eqn:Hk1, (timers w2 !! k) as [r2|] eqn:Hk2;
      try done; [|by rewrite S1, S2].
    destruct Hk as [Hs12 Hv12]. rewrite Hs12 in S1.
    destruct (settled r2) eqn:Hs2; [by rewrite S1, S2|].
    destruct S1 as (Hd1 & Hl1 & Hp1 & Hm1 & _ & _ & Ht1).
    destruct S2 as (Hd2 & Hl2 & Hp2 & Hm2 & _ & _ & Ht2).
    split; [|by eapply only_latest_settle].
    assert (Hpass : mounted w1 && passes (callback r1) w1
                    = mounted w2 && passes (callback r2) w2).
    { rewrite Hm. destruct (mounted w2) eqn:Hm2'; [|done]. cbn [andb].
      destruct (u_request w1 U k r1 Hk1) as (u1 & _ & ->).
      destruct (g_request w2 G k r2 Hk2) as (u2 & _ & ->). cbn.
      rewrite (Ho k r2 Hk2 Hs2).
      by destruct (g_current w2 G Hm2') as (-> & _). }
    unfold twin. rewrite Ht1, Ht2, !settled_alter, !value_alter, Hs, Hv.
    rewrite Hd1, Hd2, Hl1, Hl2, Hpass, Hv12, Hd, Hl.
    split_and!; congruence.
  - pose proof (twin_lookup w1 w2 k T) as Hk.
    pose proof (reject_spec k w1) as S1. pose proof (reject_spec k w2) as S2.
    destruct (timers w1 !! k) as [r1|] eqn:Hk1, (timers w2 !! k) as [r2|] eqn:Hk2;
      try done; [|by rewrite S1, S2].
    destruct Hk as [Hs12 Hv12]. rewrite Hs12 in S1.
    destruct (settled r2) eqn:Hs2; [by rewrite S1, S2|].
    destruct S1 as (Hd1 & Hl1 & Hp1 & Hm1 & _ & _ & Ht1).
    destruct S2 as (Hd2 & Hl2 & Hp2 & Hm2 & _ & _ & Ht2).
    split; [|by eapply only_latest_settle].
    unfold twin. rewrite Ht1, Ht2, !settled_alter, !value_alter, Hs, Hv.
    split_and!; congruence.
  - destruct (mounted w2) eqn:Hm2; [|by unfold unmount; rewrite Hm, Hm2].
    assert (Hm1 : mounted w1 = true) by congruence.
    destruct (unmount_spec w1 Hm1) as (Hd1 & Hl1 & Hp1 & Hm1' & _ & _ & Ht1).
    destruct (unmount_spec w2 Hm2) as (Hd2 & Hl2 & Hp2 & Hm2' & _ & _ & Ht2).
    split; [unfold twin; rewrite Ht1, Ht2; split_and!; congruence|].
    intros k r. unfold latest. rewrite Ht2. apply Ho.
Qed.

Lemma twin_run es w1 w2 :
  unguarded w1 → guarded w2 → twin w1 w2 → only_latest w2 →
  unhurried WithCleanup es w2 = true →
  twin (run WithoutCleanup es w1) (run WithCleanup es w2).
Proof.
  revert w1 w2. induction es as [|e es IH]; intros w1 w2 U G T Ho; [done|].
  cbn [unhurried]. intros [He Hes]%andb_prop. rewrite !run_cons.
  destruct (twin_step e w1 w2 U G T Ho He) as [T' Ho'].
  apply IH; auto using unguarded_step, guarded_step.
Qed.

Lemma twin_mount u (out : C) :
  twin (mount WithoutCleanup u out) (mount WithCleanup u out) ∧
  only_latest (mount WithCleanup u out).
Proof.
  destruct (start_spec WithoutCleanup u (initial u out)) as (? & ? & ? & ? & _ & _ & Ht1).
  destruct (start_spec WithCleanup u (initial u out)) as (? & ? & ? & ? & _ & _ & Ht2).
  split.
  - unfold twin, mount. rewrite Ht1, Ht2. split_and!; first [congruence|done].
  - intros k r. unfold latest, mount. rewrite Ht2. cbn.
    by destruct k.
Qed.

Lemma unhurried_app c es1 es2 w :
  unhurried c (es1 ++ es2) w = unhurried c es1 w && unhurried c es2 (run c es1 w).
Proof.
  revert w. induction es1 as [|e es1 IH]; intros w; [done|].
  cbn [app unhurried]. rewrite run_cons, IH. by rewrite andb_assoc.
Qed.
End Twins.

(** X8.  If in a run the identifier only changes when no invocation is
    outstanding, [WithoutCleanup] and [WithCleanup] hold the same [data] and
    [loading] after every event of the run. *)
Theorem components_agree_without_overlap {C : Type} `{!Sink C}
    (out : C) (u0 : Z) (es : list event) (n : nat) :
  unhurried WithCleanup es (mount WithCleanup u0 out) = true →
  display (run WithoutCleanup (take n es) (mount WithoutCleanup u0 out))
    = display (run WithCleanup (take n es) (mount WithCleanup u0 out)).
Proof.
  intros Hes. rewrite <- (take_drop n es), unhurried_app in Hes.
  apply andb_prop in Hes as [Hes _].
  destruct (twin_mount u0 out) as [T Ho].
  destruct (twin_run (take n es) _ _ (unguarded_mount u0 out) (guarded_mount u0 out)
              T Ho Hes) as (Hd & Hl & _).
  unfold display. by rewrite Hd, Hl.
Qed.

Lemma components_agree_without_overlap_witness :
  display (run WithoutCleanup (take 4 [Timeout 0%nat; Render 2; Timeout 1%nat; Render 1])
             (mount WithoutCleanup 1 ([] : list string)))
    = display (run WithCleanup (take 4 [Timeout 0%nat; Render 2; Timeout 1%nat; Render 1])
                 (mount WithCleanup 1 ([] : list string))).
Proof.
  assert (Hes : unhurried WithCleanup [Timeout 0%nat; Render 2; Timeout 1%nat; Render 1]
                  (mount WithCleanup 1 ([] : list string)) = true)
    by (vm_compute; reflexivity).
  exact (components_agree_without_overlap ([] : list string) 1
           [Timeout 0%nat; Render 2; Timeout 1%nat; Render 1] 4 Hes).
Defined.

(** ** On the clock *)

Section Clock.
Context {C : Type} `{!Sink C}.
Implicit Types (w : World C) (s : Session C) (u t : Z) (k l : nat) (c : Component)
  (e : event) (es : list event) (ds : list Z).

Lemma elem_of_insert_due (x y : Z * nat) (l : list (Z * nat)) :
  y ∈ insert_due x l ↔ y = x ∨ y ∈ l.
Proof.
  induction l as [|z l IH]; cbn [insert_due].
  - rewrite list_elem_of_singleton. split; [auto|]. by intros [?|?%elem_of_nil].
  - case_bool_decide; rewrite !elem_of_cons; [done|]. rewrite IH. tauto.
Qed.

Lemma elem_of_sorted_dues (y : Z * nat) (l : list (Z * nat)) :
  y ∈ foldr insert_due [] l ↔ y ∈ l.
Proof.
  induction l as [|z l IH]; cbn [foldr]; [done|].
  by rewrite elem_of_insert_due, elem_of_cons, IH.
Qed.

(** The timers that fire by [t] are those due by [t]. *)
Lemma elem_of_due_by t ds k :
  k ∈ due_by t ds ↔ ∃ d, ds !! k = Some d ∧ d ≤ t.
Proof.
  unfold due_by. rewrite list_elem_of_fmap. split.
  - intros ([d k'] & -> & Hin).
    rewrite elem_of_sorted_dues, list_elem_of_filter, elem_of_lookup_imap in Hin.
    destruct Hin as (Hle & i & d' & [= -> ->] & Hi). eauto.
  - intros (d & Hk & Hle). exists (d, k). split; [done|].
    rewrite elem_of_sorted_dues, list_elem_of_filter, elem_of_lookup_imap. eauto.
Qed.

Lemma le_last_due s d : d ∈ due s → d ≤ last_due s.
Proof.
  unfold last_due. induction (due s) as [|x l IH]; [by intros ?%elem_of_nil|].
  cbn [foldr]. intros [->|Hin%IH]%elem_of_cons; lia.
Qed.

Lemma timeouts_quiet (ks : list nat) : forallb quiet (Timeout <$> ks) = true.
Proof. by induction ks. Qed.

Lemma timeouts_calm (ks : list nat) : forallb calm (Timeout <$> ks) = true.
Proof. by induction ks. Qed.

Lemma calm_mounted c es w :
  forallb calm es = true → mounted w = true → mounted (run c es w) = true.
Proof.
  revert w. induction es as [|e es IH]; intros w; [done|].
  cbn [forallb]. intros [He Hes]%andb_prop Hm. rewrite run_cons. apply IH; [done|].
  destruct e as [u|k|k|]; try done.
  - cbn [step]. unfold render. rewrite Hm. case_bool_decide; [done|].
    destruct (start_spec c u (teardown w)) as (_ & _ & _ & -> & _).
    by destruct (teardown_spec w) as (_ & _ & _ & -> & _).
  - by destruct (quiet_step c (Timeout k) w eq_refl) as (_ & -> & _).
Qed.

Lemma mount_mounted c u (out : C) : mounted (mount c u out) = true.
Proof.
  unfold mount. by destruct (start_spec c u (initial u out)) as (_ & _ & _ & -> & _).
Qed.

(** A render of a mounted instance leaves it with the identifier of the
    render, and with its invocations and perhaps one more. *)
Lemma render_props c u w :
  mounted w = true →
  props (step c (Render u) w) = u ∧
  ∃ new, timers (step c (Render u) w) = timers w ++ new ∧
         (new = [] ∧ u = props w ∨ new = [request_of c u (length (heap (teardown w)))] ∧ u ≠ props w).
Proof.
  intros Hm. cbn [step]. unfold render. rewrite Hm. case_bool_decide as Hu.
  - split; [done|]. exists []. rewrite app_nil_r. auto.
  - destruct (start_spec c u (teardown w)) as (_ & _ & -> & _ & _ & _ & ->).
    destruct (teardown_spec w) as (_ & _ & _ & _ & _ & _ & ->). eauto 6.
Qed.

Lemma reached_launch c u (out : C) : reached c u out (launch c u out).
Proof.
  split; [cbn; by rewrite length_fmap|]. by exists [].
Qed.

Lemma reached_elapse c u0 (out : C) t s :
  reached c u0 out s → reached c u0 out (elapse c t s).
Proof.
  intros [Hlen (es & Hes & Hw)]. split; cbn [elapse world due].
  - by destruct (quiet_run c _ (world s) (timeouts_quiet (due_by t (due s))))
      as (_ & _ & _ & _ & ->).
  - exists (es ++ (Timeout <$> due_by t (due s))). split.
    + by rewrite forallb_app, Hes, timeouts_calm.
    + by rewrite run_app, <- Hw.
Qed.

Lemma reached_mounted c u0 (out : C) s : reached c u0 out s → mounted (world s) = true.
Proof.
  intros [_ (es & Hes & ->)]. apply calm_mounted; [done|apply mount_mounted].
Qed.

Lemma reached_render_at c u0 (out : C) t u s :
  reached c u0 out s → reached c u0 out (render_at c t u s).
Proof.
  intros R. apply (reached_elapse c u0 out t) in R.
  pose proof (reached_mounted _ _ _ _ R) as Hm.
  destruct R as [Hlen (es & Hes & Hw)].
  unfold render_at. set (s' := elapse c t s) in *. cbn zeta.
  destruct (render_props c u (world s') Hm) as (_ & new & Ht & _).
  split; cbn [world due].
  - rewrite Ht, drop_app_length, !length_app, length_fmap. lia.
  - exists (es ++ [Render u]). split.
    + by rewrite forallb_app, Hes.
    + by rewrite run_snoc, <- Hw.
Qed.

Lemma reached_play c u0 (out : C) rs s :
  reached c u0 out s → reached c u0 out (play c rs s).
Proof.
  revert s. induction rs as [|[t u] rs IH]; intros s R; [done|].
  cbn [play foldl]. apply IH. by apply reached_render_at.
Qed.

Lemma render_at_props c u0 (out : C) t u s :
  reached c u0 out s → props (world (render_at c t u s)) = u.
Proof.
  intros R. apply (reached_elapse c u0 out t) in R.
  pose proof (reached_mounted _ _ _ _ R) as Hm.
  unfold render_at. cbn [world]. by destruct (render_props c u _ Hm) as [-> _].
Qed.

(** A timer that fires leaves its promise settled. *)
Lemma fire_settles k r w :
  timers w !! k = Some r → settled <$> timers (fire k w) !! k = Some true.
Proof.
  intros Hk. pose proof (fire_spec k w) as S. rewrite Hk in S.
  destruct (settled r) eqn:Hs; [rewrite S, Hk; cbn; by rewrite Hs|].
  destruct S as (_ & _ & _ & _ & _ & _ & ->). by rewrite list_lookup_alter_eq, Hk.
Qed.

(** When every timer has fired, a [WithCleanup] that only went through
    renders and timers shows the user of its identifier. *)
Lemma guarded_finish u0 (out : C) s :
  reached WithCleanup u0 out s →
  display (world (finish WithCleanup s))
    = (Some (fetch_result (props (world s))), false) ∧
  props (world (finish WithCleanup s)) = props (world s).
Proof.
  intros R. pose proof (reached_mounted _ _ _ _ R) as Hm.
  destruct R as [Hlen (es & Hes & Hw)].
  assert (G : guarded (world s)) by (rewrite Hw; apply guarded_reachable).
  assert (Rs : responsive (world s)).
  { rewrite Hw. apply responsive_run;
      [apply guarded_mount|done|apply responsive_mount]. }
  destruct (g_current _ G Hm) as (_ & _ & r & Hr & _).
  assert (Hin : latest (world s) ∈ due_by (last_due s) (due s)).
  { apply elem_of_due_by.
    assert (is_Some (due s !! latest (world s))) as [d Hd].
    { apply lookup_lt_is_Some. rewrite Hlen. by apply lookup_lt_Some in Hr. }
    exists d. split; [done|]. apply le_last_due, list_elem_of_lookup. eauto. }
  apply list_elem_of_split in Hin as (pre & post & Hsplit).
  unfold finish, elapse. cbn [world]. rewrite Hsplit, fmap_app, fmap_cons, run_app, run_cons.
  set (w1 := run WithCleanup (Timeout <$> pre) (world s)).
  destruct (quiet_run WithCleanup _ (world s) (timeouts_quiet pre)) as (Hp1 & _).
  pose proof (latest_quiet_run WithCleanup _ (world s) (timeouts_quiet pre)) as Hk1.
  fold w1 in Hp1, Hk1.
  assert (G1 : guarded w1) by by apply guarded_run.
  assert (R1 : responsive w1) by (apply responsive_run; [done|apply timeouts_calm|done]).
  rewrite <- Hk1. cbn [step].
  set (w2 := fire (latest w1) w1).
  assert (G2 : guarded w2) by by apply guarded_fire.
  assert (R2 : responsive w2) by by apply (responsive_step (Timeout (latest w1))).
  destruct (quiet_step WithCleanup (Timeout (latest w1)) w1 eq_refl) as (Hp2 & _).
  pose proof (latest_quiet_run WithCleanup [Timeout (latest w1)] w1 eq_refl) as Hk2.
  cbn [step run foldl] in Hp2, Hk2. fold w2 in Hp2, Hk2.
  destruct (g_current _ G1 (proj1 R1)) as (_ & _ & r1 & Hr1 & _).
  pose proof (fire_settles _ _ _ Hr1) as Hset. fold w2 in Hset. rewrite <- Hk2 in Hset.
  pose proof (proj2 R2 Hset) as Hlo.
  destruct (g_shown _ G2 Hlo) as [Hd _].
  destruct (quiet_run WithCleanup _ w2 (timeouts_quiet post)) as (Hp3 & _).
  rewrite guarded_quiet_run by (done || apply timeouts_quiet).
  unfold display. rewrite Hd, Hlo, Hp3, Hp2, Hp1. done.
Qed.
End Clock.

Section Sessions.
Context {C : Type} `{!Sink C}.
Implicit Types (w : World C) (s : Session C) (d : Demo C) (u t : Z) (k l : nat)
  (c : Component) (e : event) (es : list event).

Lemma play_props c u0 (out : C) rs s :
  reached c u0 out s →
  props (world (play c rs s)) = default (props (world s)) (last rs.*2).
Proof.
  revert s. induction rs as [|[t u] rs IH]; intros s R; [done|].
  cbn [play foldl]. change (foldl _ ?s0 rs) with (play c rs s0).
  rewrite IH by by apply reached_render_at.
  rewrite (render_at_props c u0 out) by done.
  cbn [fmap list_fmap snd]. destruct (rs.*2) as [|u' us] eqn:Hus using rev_ind; [done|].
  by rewrite (last_cons_cons u), !last_snoc || rewrite last_cons, last_snoc.
Qed.

Lemma toggleUser_changes u : toggleUser u ≠ u.
Proof. unfold toggleUser. case_bool_decide; lia. Qed.

(** A render that changes the identifier registers the timer of its fetch. *)
Lemma render_at_new c u0 (out : C) t u s :
  reached c u0 out s → u ≠ props (world s) →
  due (render_at c t u s) = due s ++ [t + fetch_delay u] ∧
  world (render_at c t u s)
    = step c (Render u) (run c (Timeout <$> due_by t (due s)) (world s)) ∧
  length (timers (world (render_at c t u s))) = S (length (timers (world s))).
Proof.
  intros R Hu. pose proof (reached_elapse c u0 out t s R) as R'.
  pose proof (reached_mounted _ _ _ _ R') as Hm.
  destruct (quiet_run c _ (world s) (timeouts_quiet (due_by t (due s))))
    as (Hp & _ & _ & _ & Hlen).
  unfold render_at. cbn [world due elapse] in *.
  destruct (render_props c u _ Hm) as (_ & new & Ht & [[_ Hu']|[-> _]]); [congruence|].
  rewrite Ht, drop_app_length, length_app, Hlen. cbn [length fmap list_fmap].
  split_and!; [|done|lia]. by destruct c.
Qed.
End Sessions.

(** X9.  Render a [WithCleanup] with any identifiers at any times and let
    every timer fire: it shows the user of the last identifier, and is not
    loading. *)
Theorem WithCleanup_converges {C : Type} `{!Sink C}
    (out : C) (u0 : Z) (rs : list (Z * Z)) :
  display (world (finish WithCleanup (play WithCleanup rs (launch WithCleanup u0 out))))
    = (Some (fetch_result (default u0 (last rs.*2))), false).
Proof.
  pose proof (reached_launch WithCleanup u0 out) as R0.
  pose proof (reached_play WithCleanup u0 out rs _ R0) as R.
  destruct (guarded_finish u0 out _ R) as [-> _].
  rewrite (play_props WithCleanup u0 out) by done.
  cbn [launch world]. unfold mount.
  by destruct (start_spec WithCleanup u0 (initial u0 out)) as (_ & _ & -> & _).
Qed.

(** ** The shell *)

Section Demo.
Context {C : Type} `{!Sink C}.
Implicit Types (w : World C) (s : Session C) (d : Demo C) (u t : Z) (k l n : nat)
  (c : Component) (e : event) (es : list event).

(** What the shell keeps true while it is clicked [n] times. *)
Lemma clicks_invariant (out : C) (ts : list Z) :
  let d := clicks ts (RaceConditionDemo out) in
  reached WithoutCleanup 1 out (without d) ∧ reached WithCleanup 1 out (with_ d) ∧
  props (world (without d)) = userId d ∧ props (world (with_ d)) = userId d ∧
  length (timers (world (without d))) = S (length ts) ∧
  length (timers (world (with_ d))) = S (length ts) ∧
  userId d = (if Nat.even (length ts) then 1 else 2).
Proof.
  induction ts as [|t ts IH] using rev_ind; cbn zeta.
  - unfold clicks, RaceConditionDemo. cbn [foldl without with_ userId length Nat.even].
    split_and!; try apply reached_launch; done.
  - cbn zeta in IH. destruct IH as (R1 & R2 & Hp1 & Hp2 & Hn1 & Hn2 & Hu).
    unfold clicks in *. rewrite foldl_snoc.
    set (d := foldl (λ d t, click t d) (RaceConditionDemo out) ts) in *.
    cbn [click without with_ userId].
    pose proof (toggleUser_changes (userId d)) as Hne.
    destruct (render_at_new WithoutCleanup 1 out t (toggleUser (userId d)) _ R1)
      as (_ & _ & Hlen1); [congruence|].
    destruct (render_at_new WithCleanup 1 out t (toggleUser (userId d)) _ R2)
      as (_ & _ & Hlen2); [congruence|].
    rewrite length_app, Nat.add_1_r, Nat.even_succ, <- Nat.negb_even.
    split_and!.
    + by apply reached_render_at.
    + by apply reached_render_at.
    + by apply (render_at_props WithoutCleanup 1 out).
    + by apply (render_at_props WithCleanup 1 out).
    + lia.
    + lia.
    + rewrite Hu. by destruct (Nat.even (length ts)).
Qed.
End Demo.

(** X10.  However often and whenever the button of [RaceConditionDemo] is
    clicked: the identifier is 1 after an even number of clicks and 2 after
    an odd number; both panels are rendered with it; each click has started
    one more fetch in each panel, none of which is ever dropped; and once
    every timer has fired, the panel of [WithCleanup] shows the user of the
    identifier. *)
Theorem RaceConditionDemo_clicks {C : Type} `{!Sink C} (out : C) (ts : list Z) :
  userId (clicks ts (RaceConditionDemo out)) = (if Nat.even (length ts) then 1 else 2) ∧
  props (world (without (clicks ts (RaceConditionDemo out))))
    = userId (clicks ts (RaceConditionDemo out)) ∧
  props (world (with_ (clicks ts (RaceConditionDemo out))))
    = userId (clicks ts (RaceConditionDemo out)) ∧
  length (timers (world (without (clicks ts (RaceConditionDemo out))))) = S (length ts) ∧
  length (timers (world (with_ (clicks ts (RaceConditionDemo out))))) = S (length ts) ∧
  panel (world (with_ (at_rest (clicks ts (RaceConditionDemo out)))))
    = Fields (Some (userId (clicks ts (RaceConditionDemo out))))
             (Some ("User " +:+ pretty (userId (clicks ts (RaceConditionDemo out)))))
             (Some ("user" +:+ pretty (userId (clicks ts (RaceConditionDemo out)))
                    +:+ "@example.com")).
Proof.
  destruct (clicks_invariant out ts) as (R1 & R2 & Hp1 & Hp2 & Hn1 & Hn2 & Hu).
  cbn zeta in *. split_and!; try done.
  cbn [at_rest with_].
  destruct (guarded_finish 1 out _ R2) as [Hdisp _].
  pose proof (f_equal fst Hdisp) as Hd. pose proof (f_equal snd Hdisp) as Hl.
  cbn [display fst snd] in Hd, Hl. unfold panel. by rewrite Hl, Hd, Hp2.
Qed.

(** ** One click *)

Section OneClick.
Context {C : Type} `{!Sink C}.
Implicit Types (w : World C) (s : Session C) (u t d : Z) (k l n : nat)
  (c : Component) (e : event) (es : list event).

Lemma due_by_single t d0 :
  due_by t [d0] = if bool_decide (d0 ≤ t) then [0%nat] else [].
Proof.
  unfold due_by. cbn [imap]. rewrite filter_cons, filter_nil. cbn [fst].
  case_bool_decide; by case_decide.
Qed.

Lemma due_by_pair t d0 d1 :
  d0 ≤ t → d1 ≤ t →
  due_by t [d0; d1] = if bool_decide (d0 ≤ d1) then [0%nat; 1%nat] else [1%nat; 0%nat].
Proof.
  intros H0 H1. unfold due_by. cbn [imap compose].
  rewrite !filter_cons, filter_nil. cbn [fst].
  rewrite !decide_True by done. cbn [foldr insert_due fst].
  by case_bool_decide.
Qed.

Lemma display_erase c u (out : C) es :
  display (run c es (mount c u out)) = display (run c es (mount c u tt)).
Proof.
  change (display (run c es (mount c u out)))
    with (display (core (run c es (mount c u out)))).
  by rewrite core_run, core_mount.
Qed.

(** The events of a session with one click at time [t], in their order. *)
Lemma one_click_world c (out : C) t :
  world (finish c (render_at c t 2 (launch c 1 out)))
    = run c ((Timeout <$> due_by t [3000])
             ++ Render 2
                :: (Timeout <$> due_by (Z.max 3000 (Z.max (t + 1000) 0)) [3000; t + 1000]))
          (mount c 1 out).
Proof.
  pose proof (reached_launch c 1 out) as R.
  assert (Hp : props (world (launch c 1 out)) = 1).
  { cbn [launch world]. unfold mount.
    by destruct (start_spec c 1 (initial 1 out)) as (_ & _ & -> & _). }
  assert (Hdue : due (launch c 1 out) = [3000]).
  { cbn [launch due]. unfold mount.
    destruct (start_spec c 1 (initial 1 out)) as (_ & _ & _ & _ & _ & _ & ->).
    by destruct c. }
  destruct (render_at_new c 1 out t 2 _ R) as (Hd & Hw & _); [by rewrite Hp|].
  unfold finish, elapse, last_due. cbn [world]. rewrite Hd, Hw, Hdue.
  cbn [app foldr launch world]. by rewrite run_app, run_cons.
Qed.
End OneClick.

(** X11.  The shell clicked once, at time [t], and left until every timer
    has fired: the identifier is 2 and [WithCleanup] shows user 2;
    [WithoutCleanup] shows user 1 if the click came before 2000
    milliseconds, when the slower response for user 1 arrives last, and
    user 2 otherwise. *)
Theorem one_click_race {C : Type} `{!Sink C} (out : C) (t : Z) :
  userId (at_rest (click t (RaceConditionDemo out))) = 2 ∧
  display (world (with_ (at_rest (click t (RaceConditionDemo out)))))
    = (Some (fetch_result 2), false) ∧
  display (world (without (at_rest (click t (RaceConditionDemo out)))))
    = (Some (fetch_result (if bool_decide (t < 2000) then 1 else 2)), false).
Proof.
  cbn [at_rest click RaceConditionDemo userId with_ without].
  change (toggleUser 1) with 2. rewrite !one_click_world.
  rewrite due_by_single, due_by_pair by lia.
  split; [done|].
  destruct (decide (t < 2000)) as [Ht|Ht].
  - rewrite (bool_decide_eq_false_2 (3000 ≤ t)), (bool_decide_eq_false_2 (3000 ≤ t + 1000)),
      (bool_decide_eq_true_2 (t < 2000)) by lia.
    cbn [fmap list_fmap app]. rewrite !display_erase. by vm_compute.
  - rewrite (bool_decide_eq_true_2 (3000 ≤ t + 1000)),
      (bool_decide_eq_false_2 (t < 2000)) by lia.
    case_bool_decide; cbn [fmap list_fmap app]; rewrite !display_erase; by vm_compute.
Qed.

(** ** No cancellation *)

Section Kept.
Context {C : Type} `{!Sink C}.
Implicit Types (w : World C) (u : Z) (k l : nat) (c : Component)
  (e : event) (es : list event) (r : Request).

Lemma kept_step c e w k r :
  timers w !! k = Some r →
  ∃ r', timers (step c e w) !! k = Some r' ∧
        timer r' = timer r ∧ callback r' = callback r ∧
        (settled r = true → settled r' = true).
Proof.
  intros Hk.
  assert (Hsettle : ∀ w' j, timers w' = alter mark_settled j (timers w) →
            ∃ r', timers w' !! k = Some r' ∧ timer r' = timer r ∧
                  callback r' = callback r ∧ (settled r = true → settled r' = true)).
  { intros w' j ->. rewrite list_lookup_alter. case_decide as Hj.
    - subst j. rewrite Hk. exists (mark_settled r). by split_and!.
    - rewrite Hk. eauto 6. }
  destruct e as [u|j|j|]; cbn [step].
  - unfold render. destruct (mounted w); [|eauto 6]. case_bool_decide; [eauto 6|].
    destruct (start_spec c u (teardown w)) as (_ & _ & _ & _ & _ & _ & ->).
    destruct (teardown_spec w) as (_ & _ & _ & _ & _ & _ & ->).
    exists r. split_and!; try done. by apply lookup_app_l_Some.
  - pose proof (fire_spec j w) as S.
    destruct (timers w !! j) as [rj|]; [|rewrite S; eauto 6].
    destruct (settled rj); [rewrite S; eauto 6|].
    destruct S as (_ & _ & _ & _ & _ & _ & Ht). eauto.
  - pose proof (reject_spec j w) as S.
    destruct (timers w !! j) as [rj|]; [|rewrite S; eauto 6].
    destruct (settled rj); [rewrite S; eauto 6|].
    destruct S as (_ & _ & _ & _ & _ & _ & Ht). eauto.
  - destruct (mounted w) eqn:Hm; [|unfold unmount; rewrite Hm; eauto 6].
    destruct (unmount_spec w Hm) as (_ & _ & _ & _ & _ & _ & ->). eauto 6.
Qed.
End Kept.

(** X12.  Nothing cancels a fetch: through any events on either component,
    an invocation keeps its place, its timer and its callback (no cleanup,
    render or unmount removes it), and a promise that is settled stays
    settled. *)
Theorem invocations_never_dropped {C : Type} `{!Sink C}
    (c : Component) (es : list event) (w : World C) (k : nat) (r : Request) :
  timers w !! k = Some r →
  ∃ r', timers (run c es w) !! k = Some r' ∧
        timer r' = timer r ∧ callback r' = callback r ∧
        (settled r = true → settled r' = true).
Proof.
  revert w r. induction es as [|e es IH]; intros w r Hk; [eauto 6|].
  rewrite run_cons.
  destruct (kept_step c e w k r Hk) as (r1 & Hk1 & Ht1 & Hc1 & Hs1).
  destruct (IH _ _ Hk1) as (r' & Hk' & Ht' & Hc' & Hs').
  exists r'. split_and!; [done|congruence|congruence|auto].
Qed.

Lemma invocations_never_dropped_witness :
  ∃ r', timers (run WithCleanup [Render 2; Timeout 1%nat; Unmount]
                  (mount WithCleanup 1 ([] : list string))) !! 0%nat = Some r' ∧
        timer r' = timer (request_of WithCleanup 1 0) ∧
        callback r' = callback (request_of WithCleanup 1 0) ∧
        (settled (request_of WithCleanup 1 0) = true → settled r' = true).
Proof.
  assert (Hk : timers (mount WithCleanup 1 ([] : list string)) !! 0%nat
               = Some (request_of WithCleanup 1 0)) by (vm_compute; reflexivity).
  exact (invocations_never_dropped WithCleanup [Render 2; Timeout 1%nat; Unmount]
           (mount WithCleanup 1 []) 0 (request_of WithCleanup 1 0) Hk).
Defined.
